(** * heic_converter.c: a batch HEIC to JPEG converter

    A shallow embedding of [src/heic_converter.c] and the properties of its
    driver, its converter and its helper functions.

    - C strings are lists of bytes (the bytes before the terminating NUL).
    - Calls into libc, libheif and libjpeg are answered by an explicit
      [world]; every call is recorded in a trace of [event]s.
    - A computation either returns, terminates the process ([exit]), or has
      no defined meaning in C. *)

From Stdlib Require Import List Bool Arith ZArith Lia Ascii String DecimalString.
Import ListNotations.

Local Open Scope list_scope.

(** ** C strings *)

Module CString.

Definition cstring : Type := list ascii.

(** A string literal of the source. *)
Definition lit (s : string) : cstring := list_ascii_of_string s.

Definition NUL : ascii := Ascii.zero.
Definition DOT : ascii := "."%char.
Definition SLASH : ascii := "/"%char.
Definition LF : cstring := [ascii_of_nat 10].

(** The contents of a C string never include the terminator. *)
Definition no_nul (s : cstring) : bool :=
  forallb (fun c => negb (Ascii.eqb c NUL)) s.

Definition code (c : ascii) : Z := Z.of_nat (nat_of_ascii c).

(** [tolower] of <ctype.h> in the "C" locale (the program never calls
    [setlocale]). *)
Definition tolower (c : ascii) : ascii :=
  let n := nat_of_ascii c in
  if (65 <=? n)%nat && (n <=? 90)%nat then ascii_of_nat (n + 32) else c.

(** [strrchr(s, c)] for [c <> NUL]: offset of the last occurrence of [c],
    [None] for the NULL pointer. *)
Fixpoint strrchr (s : cstring) (c : ascii) : option nat :=
  match s with
  | [] => None
  | a :: s' =>
      match strrchr s' c with
      | Some k => Some (S k)
      | None => if Ascii.eqb a c then Some 0%nat else None
      end
  end.

(** [strcasecmp(s1, s2)]: difference of the first pair of bytes that differ
    after [tolower]; the end of a list is the terminating NUL. *)
Fixpoint strcasecmp (s1 s2 : cstring) : Z :=
  match s1, s2 with
  | [], [] => 0
  | [], c2 :: _ => (0 - code (tolower c2))%Z
  | c1 :: _, [] => code (tolower c1)
  | c1 :: t1, c2 :: t2 =>
      let d := (code (tolower c1) - code (tolower c2))%Z in
      if (d =? 0)%Z then strcasecmp t1 t2 else d
  end.

(** [snprintf(buf, size, ...)] keeps at most [size - 1] bytes of the
    formatted text. *)
Definition snprintf (size : nat) (formatted : cstring) : cstring :=
  firstn (size - 1) formatted.

(** [%d] *)
Definition decimal (z : Z) : cstring :=
  lit (NilZero.string_of_int (Z.to_int z)).

Fixpoint is_prefix (p s : cstring) : bool :=
  match p, s with
  | [], _ => true
  | _ :: _, [] => false
  | a :: p', b :: s' => Ascii.eqb a b && is_prefix p' s'
  end.

(** [p] occurs in [s]. *)
Fixpoint is_infix (p s : cstring) : bool :=
  is_prefix p s ||
  match s with
  | [] => false
  | _ :: s' => is_infix p s'
  end.

Definition occurs_in (p s : cstring) : Prop :=
  exists pre post, s = pre ++ p ++ post.

End CString.
Export CString.

(** ** The program's constants and pure helpers *)

Definition MAX_PATH : nat := 1024.

(** [has_heic_extension]; the C [int] result is read as a truth value. *)
Definition has_heic_extension (filename : cstring) : bool :=
  match strrchr filename DOT with
  | None => false
  | Some ext => (strcasecmp (skipn ext filename) (lit ".HEIC") =? 0)%Z
  end.

(** Lines 113-114 of [convert_heic_to_jpg]: the part after the last slash. *)
Definition base_name (input_path : cstring) : cstring :=
  match strrchr input_path SLASH with
  | Some k => skipn (S k) input_path
  | None => input_path
  end.

(** The precision argument [(int)(strrchr(base_name, '.') - base_name)] of
    line 117.  Subtracting from a NULL pointer has no defined value. *)
Definition stem_precision (base : cstring) : option Z :=
  match strrchr base DOT with
  | Some k => Some (Z.of_nat k)
  | None => None
  end.

(** Lines 112-117: the text left in [output_filename] by [snprintf] with the
    format ["%s/%.*s.jpg"]; [None] when the precision is undefined. *)
Definition output_filename (input_path output_dir : cstring) : option cstring :=
  let base := base_name input_path in
  match stem_precision base with
  | Some p =>
      Some (snprintf MAX_PATH
              (output_dir ++ lit "/" ++ firstn (Z.to_nat p) base ++ lit ".jpg"))
  | None => None
  end.

(** ** Executions: traces and outcomes *)

(** The libjpeg calls of the encoding phase (lines 126-142). *)
Inductive jpeg_call : Type :=
| jpeg_stdio_dest
| jpeg_set_defaults
| jpeg_set_quality (quality : Z)
| jpeg_start_compress
| jpeg_write_scanlines (next_scanline : nat) (offset : Z)
| jpeg_finish_compress.

(** What the program does to the outside, in program order.  A [bool]
    carried by a call is its success. *)
Inductive event : Type :=
| printf (text : cstring)
| fprintf_stderr (text : cstring)
| scanf_d
| stat (path : cstring)
| mkdir (path : cstring) (mode : Z)
| opendir (path : cstring)
| readdir (d_name : option cstring)
| closedir
| enter_convert (input_path output_dir : cstring) (jpeg_quality : Z)
| jpeg_create_compress
| heif_context_alloc (ok : bool)
| heif_context_read_from_file (path : cstring) (ok : bool)
| heif_context_get_primary_image_handle (ok : bool)
| heif_decode_image (ok : bool)
| heif_image_get_plane_readonly
| fopen_wb (path : cstring) (ok : bool)
| jpeg (c : jpeg_call) (ok : bool)
| fclose
| heif_image_release
| heif_image_handle_release
| heif_context_free
| jpeg_destroy_compress.

Definition trace : Type := list event.

(** How a computation ends. *)
Inductive result (A : Type) : Type :=
| Ret (a : A)          (* it returns [a] *)
| Exit (status : Z)    (* [exit(status)] was called inside a library *)
| Undefined.           (* the execution has no defined meaning in C *)

Arguments Ret {A} a.
Arguments Exit {A} status.
Arguments Undefined {A}.

Definition M (A : Type) : Type := (trace * result A)%type.

Definition ret {A : Type} (a : A) : M A := ([], Ret a).

Definition bind {A B : Type} (m : M A) (k : A -> M B) : M B :=
  match m with
  | (t, Ret a) => let (t', r) := k a in (t ++ t', r)
  | (t, Exit status) => (t, Exit status)
  | (t, Undefined) => (t, Undefined)
  end.

Definition emit (e : event) : M unit := ([e], Ret tt).

Definition undefined {A : Type} : M A := ([], Undefined).

Declare Scope c_scope.
Delimit Scope c_scope with c.
Notation "x <- m ;; k" := (bind m (fun x => k))
  (at level 61, m at next level, right associativity) : c_scope.
Notation "m ;; k" := (bind m (fun _ => k))
  (at level 61, right associativity) : c_scope.
Local Open Scope c_scope.

Definition trace_of {A : Type} (m : M A) : trace := fst m.
Definition result_of {A : Type} (m : M A) : result A := snd m.

(** ** The outside world *)

(** [EXIT_FAILURE] of <stdlib.h>. *)
Definition EXIT_FAILURE : Z := 1.

(** What libheif, libc and libjpeg answer during one conversion.  The
    libraries are not part of the repository; the fields are their
    documented results. *)
Record job_world : Type := {
  heif_alloc_ok : bool;       (* heif_context_alloc() <> NULL *)
  heif_read_ok : bool;        (* heif_context_read_from_file(...).code == heif_error_Ok *)
  heif_primary_ok : bool;     (* heif_context_get_primary_image_handle(...).code == heif_error_Ok *)
  heif_decode_ok : bool;      (* heif_decode_image(...).code == heif_error_Ok *)
  plane_stride : Z;           (* stride stored by heif_image_get_plane_readonly *)
  image_width : Z;            (* heif_image_get_width *)
  image_height : Z;           (* heif_image_get_height *)
  fopen_ok : bool;            (* fopen(output_filename, "wb") <> NULL *)
  jpeg_ok : jpeg_call -> bool (* false: libjpeg reports an error in this call *)
}.

Inductive file_kind : Type := regular_file | directory | other_kind.

Record world : Type := {
  stdin_int : option Z;                      (* Some q: scanf("%d") returned 1 and stored q *)
  stat_result : cstring -> option file_kind; (* Some k: stat returned 0 *)
  mkdir_ok : cstring -> Z -> bool;           (* mkdir returned 0 *)
  opendir_result : cstring -> option (list cstring); (* the names readdir will yield *)
  closedir_ok : bool;                        (* closedir returned 0 *)
  strerror_errno : cstring;                  (* strerror(errno) after a failed opendir *)
  job : cstring -> job_world                 (* per input path *)
}.

(** ** The converter *)

(** The pointer members of [ConversionContext]: [true] for non-NULL. *)
Record ConversionContext : Type := {
  ctx : bool;
  handle : bool;
  img : bool;
  outfile : bool
}.

(** [ConversionContext ctx = {0}] *)
Definition ctx_zero : ConversionContext :=
  {| ctx := false; handle := false; img := false; outfile := false |}.

Definition set_ctx (c : ConversionContext) (p : bool) : ConversionContext :=
  {| ctx := p; handle := handle c; img := img c; outfile := outfile c |}.
Definition set_handle (c : ConversionContext) (p : bool) : ConversionContext :=
  {| ctx := ctx c; handle := p; img := img c; outfile := outfile c |}.
Definition set_img (c : ConversionContext) (p : bool) : ConversionContext :=
  {| ctx := ctx c; handle := handle c; img := p; outfile := outfile c |}.
Definition set_outfile (c : ConversionContext) (p : bool) : ConversionContext :=
  {| ctx := ctx c; handle := handle c; img := img c; outfile := p |}.

Definition when (b : bool) (m : M unit) : M unit := if b then m else ret tt.

(** [cleanup_context] (lines 47-71), called on [&ctx], never on NULL. *)
Definition cleanup_context (c : ConversionContext) : M unit :=
  when (outfile c) (emit fclose) ;;
  when (img c) (emit heif_image_release) ;;
  when (handle c) (emit heif_image_handle_release) ;;
  when (ctx c) (emit heif_context_free) ;;
  emit jpeg_destroy_compress.

(** A libjpeg call under the error manager installed by [jpeg_std_error]
    (line 79): on an error its [error_exit] prints libjpeg's message,
    destroys the JPEG object and calls [exit(EXIT_FAILURE)]; the call does
    not return.  The trace records the calls the program makes, not what
    libjpeg does on its way out. *)
Definition jpeg_do (J : job_world) (c : jpeg_call) : M unit :=
  if jpeg_ok J c then emit (jpeg c true)
  else ([jpeg c false], Exit EXIT_FAILURE).

(** [JDIMENSION] is [unsigned int]. *)
Definition JDIMENSION (z : Z) : Z := z mod 2 ^ 32.

(** The loop of lines 137-140.  With the stdio destination
    [jpeg_write_scanlines] of one row advances [next_scanline] by one;
    [remaining] is [image_height - next_scanline]. *)
Fixpoint write_scan_lines (J : job_world) (stride : Z) (next_scanline remaining : nat)
  : M unit :=
  match remaining with
  | O => ret tt
  | S remaining' =>
      jpeg_do J (jpeg_write_scanlines next_scanline
                   (JDIMENSION (Z.of_nat next_scanline * stride))) ;;
      write_scan_lines J stride (S next_scanline) remaining'
  end.

(** The common tail [cleanup: cleanup_context(&ctx); return success;]. *)
Definition goto_cleanup (c : ConversionContext) (success : bool) : M bool :=
  cleanup_context c ;; ret success.

(** [convert_heic_to_jpg] (lines 73-148).  The first event records the call
    and its arguments.  libheif stores a handle or an image through its out
    parameter only when it succeeds, so after a failed call the member is
    still the NULL of the initialisation.  The value returned by
    [jpeg_write_scanlines] is not used by the source. *)
Definition convert_heic_to_jpg (J : job_world)
    (input_path output_dir : cstring) (jpeg_quality : Z) : M bool :=
  emit (enter_convert input_path output_dir jpeg_quality) ;;
  let c := ctx_zero in
  emit jpeg_create_compress ;;
  emit (heif_context_alloc (heif_alloc_ok J)) ;;
  let c := set_ctx c (heif_alloc_ok J) in
  if negb (ctx c) then
    emit (fprintf_stderr (lit "Failed to allocate HEIF context" ++ LF)) ;;
    goto_cleanup c false
  else
  emit (heif_context_read_from_file input_path (heif_read_ok J)) ;;
  if negb (heif_read_ok J) then
    emit (fprintf_stderr (lit "Could not read HEIC file: " ++ input_path ++ LF)) ;;
    goto_cleanup c false
  else
  emit (heif_context_get_primary_image_handle (heif_primary_ok J)) ;;
  let c := set_handle c (heif_primary_ok J) in
  if negb (heif_primary_ok J) then
    emit (fprintf_stderr (lit "Could not get primary image handle" ++ LF)) ;;
    goto_cleanup c false
  else
  emit (heif_decode_image (heif_decode_ok J)) ;;
  let c := set_img c (heif_decode_ok J) in
  if negb (heif_decode_ok J) then
    emit (fprintf_stderr (lit "Could not decode image" ++ LF)) ;;
    goto_cleanup c false
  else
  emit heif_image_get_plane_readonly ;;
  let stride := plane_stride J in
  match output_filename input_path output_dir with
  | None => undefined
  | Some output_filename =>
      emit (fopen_wb output_filename (fopen_ok J)) ;;
      let c := set_outfile c (fopen_ok J) in
      if negb (outfile c) then
        emit (fprintf_stderr
                (lit "Could not create output file: " ++ output_filename ++ LF)) ;;
        goto_cleanup c false
      else
      jpeg_do J jpeg_stdio_dest ;;
      let image_height := JDIMENSION (image_height J) in
      jpeg_do J jpeg_set_defaults ;;
      jpeg_do J (jpeg_set_quality jpeg_quality) ;;
      jpeg_do J jpeg_start_compress ;;
      write_scan_lines J stride 0 (Z.to_nat image_height) ;;
      jpeg_do J jpeg_finish_compress ;;
      goto_cleanup c true
  end.

(** ** The driver *)

Definition input_dir : cstring := lit "Photos".
Definition output_dir : cstring := lit "output".

(** [ensure_directory] (lines 41-45); mode [0755] is 493. *)
Definition ensure_directory (W : world) (path : cstring) : M bool :=
  emit (stat path) ;;
  match stat_result W path with
  | Some _ => ret true
  | None => emit (mkdir path 493) ;; ret (mkdir_ok W path 493)
  end.

(** Line 181: the path handed to the converter for a directory entry. *)
Definition input_path_of (d_name : cstring) : cstring :=
  snprintf MAX_PATH (input_dir ++ lit "/" ++ d_name).

(** The loop of lines 179-186 over the names [readdir] yields; the result is
    [files_processed] (a C [int]; a directory has far fewer than [INT_MAX]
    entries, so the count is not wrapped). *)
Fixpoint batch (W : world) (jpeg_quality : Z) (entries : list cstring)
    (files_processed : Z) : M Z :=
  match entries with
  | [] => emit (readdir None) ;; ret files_processed
  | d_name :: rest =>
      emit (readdir (Some d_name)) ;;
      if has_heic_extension d_name then
        let input_path := input_path_of d_name in
        converted <- convert_heic_to_jpg (job W input_path) input_path output_dir jpeg_quality ;;
        batch W jpeg_quality rest
          (if converted then files_processed + 1 else files_processed)%Z
      else batch W jpeg_quality rest files_processed
  end.

(** The test of line 161. *)
Definition quality_invalid (W : world) : bool :=
  match stdin_int W with
  | None => true
  | Some q => (q <? 1)%Z || (q >? 100)%Z
  end.

(** [main] (lines 150-199); the result is the value it returns. *)
Definition main (W : world) : M Z :=
  let files_processed := 0%Z in
  emit (printf (lit "Enter JPEG quality (1-100, recommended 75-95): ")) ;;
  emit scanf_d ;;
  match stdin_int W with
  | None =>
      emit (fprintf_stderr
              (lit "Invalid quality value. Please enter a number between 1 and 100." ++ LF)) ;;
      ret 1%Z
  | Some jpeg_quality =>
      if (jpeg_quality <? 1)%Z || (jpeg_quality >? 100)%Z then
        emit (fprintf_stderr
                (lit "Invalid quality value. Please enter a number between 1 and 100." ++ LF)) ;;
        ret 1%Z
      else
      emit (printf (lit "Using JPEG quality: " ++ decimal jpeg_quality ++ LF)) ;;
      created <- ensure_directory W output_dir ;;
      if negb created then
        emit (fprintf_stderr (lit "Failed to create output directory" ++ LF)) ;;
        ret 1%Z
      else
      emit (opendir input_dir) ;;
      match opendir_result W input_dir with
      | None =>
          emit (fprintf_stderr (lit "Could not open Photos directory: "
                                  ++ strerror_errno W ++ LF)) ;;
          ret 1%Z
      | Some entries =>
          emit (printf (lit "Converting files..." ++ LF)) ;;
          files_processed <- batch W jpeg_quality entries files_processed ;;
          emit closedir ;;
          let success := closedir_ok W in
          (if (files_processed =? 0)%Z then
             emit (printf (lit "No HEIC files found in the Photos directory." ++ LF))
           else
             emit (printf (lit "Successfully converted " ++ decimal files_processed
                             ++ lit " photos to JPEG format." ++ LF))) ;;
          ret (if success then 0 else 1)%Z
      end
  end.

(** ** Observations on traces *)

Fixpoint filter_map {A B : Type} (f : A -> option B) (l : list A) : list B :=
  match l with
  | [] => []
  | a :: l' =>
      match f a with
      | Some b => b :: filter_map f l'
      | None => filter_map f l'
      end
  end.

(** The resources of a conversion, one per member of [ConversionContext]
    that owns something. *)
Inductive resource : Type :=
| jpeg_compress_state
| heif_context
| image_handle
| decoded_image
| output_file.

Definition acquired (e : event) : option resource :=
  match e with
  | jpeg_create_compress => Some jpeg_compress_state
  | heif_context_alloc true => Some heif_context
  | heif_context_get_primary_image_handle true => Some image_handle
  | heif_decode_image true => Some decoded_image
  | fopen_wb _ true => Some output_file
  | _ => None
  end.

Definition released (e : event) : option resource :=
  match e with
  | jpeg_destroy_compress => Some jpeg_compress_state
  | heif_context_free => Some heif_context
  | heif_image_handle_release => Some image_handle
  | heif_image_release => Some decoded_image
  | fclose => Some output_file
  | _ => None
  end.

Definition acquisitions (t : trace) : list resource := filter_map acquired t.
Definition releases (t : trace) : list resource := filter_map released t.

(** The steps of a conversion that can fail. *)
Inductive step : Type :=
| context_allocation
| container_read
| primary_image_lookup
| decode
| output_open
| scanline_encoding
| finish_compress.

Definition step_of (e : event) : option step :=
  match e with
  | heif_context_alloc _ => Some context_allocation
  | heif_context_read_from_file _ _ => Some container_read
  | heif_context_get_primary_image_handle _ => Some primary_image_lookup
  | heif_decode_image _ => Some decode
  | fopen_wb _ _ => Some output_open
  | jpeg (jpeg_write_scanlines _ _) _ => Some scanline_encoding
  | jpeg jpeg_finish_compress _ => Some finish_compress
  | _ => None
  end.

Definition steps_run (t : trace) : list step := filter_map step_of t.

(** The rows the scanline loop hands to libjpeg for an image of [height]
    rows. *)
Definition scanline_calls (J : job_world) : list jpeg_call :=
  map (fun row => jpeg_write_scanlines row (JDIMENSION (Z.of_nat row * plane_stride J)))
      (seq 0 (Z.to_nat (JDIMENSION (image_height J)))).

(** All libjpeg calls of the encoding phase, in order. *)
Definition encoding_calls (J : job_world) (jpeg_quality : Z) : list jpeg_call :=
  [jpeg_stdio_dest; jpeg_set_defaults; jpeg_set_quality jpeg_quality; jpeg_start_compress]
  ++ scanline_calls J ++ [jpeg_finish_compress].

Definition diagnostics (t : trace) : list cstring :=
  filter_map (fun e => match e with fprintf_stderr text => Some text | _ => None end) t.

Definition stdout (t : trace) : list cstring :=
  filter_map (fun e => match e with printf text => Some text | _ => None end) t.

(** The input paths of the calls of [convert_heic_to_jpg], in order. *)
Definition converted_paths (t : trace) : list cstring :=
  filter_map (fun e => match e with enter_convert p _ _ => Some p | _ => None end) t.

(** Calls that open, write or close a file of the output directory. *)
Definition touches_output (e : event) : bool :=
  match e with
  | fopen_wb _ _ | jpeg _ _ | fclose => true
  | _ => false
  end.

(** Calls on directories. *)
Definition directory_operation (e : event) : bool :=
  match e with
  | stat _ | mkdir _ _ | opendir _ | readdir _ | closedir => true
  | _ => false
  end.

(** The spec's reading of the extension filter: the name ends in a dot and
    the letters h, e, i, c, each in either case. *)
Definition ends_in_heic (name : cstring) : Prop :=
  exists stem c1 c2 c3 c4,
    name = stem ++ [DOT; c1; c2; c3; c4] /\
    (c1 = "h"%char \/ c1 = "H"%char) /\
    (c2 = "e"%char \/ c2 = "E"%char) /\
    (c3 = "i"%char \/ c3 = "I"%char) /\
    (c4 = "c"%char \/ c4 = "C"%char).


(** The spec's words for the output name.  [b] is the basename of [p]: what
    follows the last slash, or all of [p] when it has none. *)
Definition basename_of (p b : cstring) : Prop :=
  ~ In SLASH b /\ (p = b \/ exists d, p = d ++ SLASH :: b).

(** [stem] is [b] with everything from its last dot stripped. *)
Definition without_extension (b stem : cstring) : Prop :=
  exists ext, b = stem ++ DOT :: ext /\ ~ In DOT ext.

(** A run of libjpeg calls in sequence, and the part of it that is
    executed: the calls up to and including the first that reports an
    error. *)
Fixpoint jpeg_seq (J : job_world) (cs : list jpeg_call) : M unit :=
  match cs with
  | [] => ret tt
  | c :: cs' => jpeg_do J c ;; jpeg_seq J cs'
  end.

Fixpoint jpeg_trace (J : job_world) (cs : list jpeg_call) : trace :=
  match cs with
  | [] => []
  | c :: cs' => if jpeg_ok J c then jpeg c true :: jpeg_trace J cs' else [jpeg c false]
  end.

(** The calls of [cleanup_context] when every pointer is set. *)
Definition full_cleanup : trace :=
  [fclose; heif_image_release; heif_image_handle_release; heif_context_free;
   jpeg_destroy_compress].

(** The traces of a conversion, by the place where it stops.  Lemma
    [convert_heic_to_jpg_runs] shows that every call of
    [convert_heic_to_jpg] runs in one of these ways. *)
Inductive convert_run (J : job_world) (p d : cstring) (q : Z) : M bool -> Prop :=
| run_alloc_fails :
    heif_alloc_ok J = false ->
    convert_run J p d q
      ([enter_convert p d q; jpeg_create_compress; heif_context_alloc false;
        fprintf_stderr (lit "Failed to allocate HEIF context" ++ LF);
        jpeg_destroy_compress], Ret false)
| run_read_fails :
    heif_alloc_ok J = true -> heif_read_ok J = false ->
    convert_run J p d q
      ([enter_convert p d q; jpeg_create_compress; heif_context_alloc true;
        heif_context_read_from_file p false;
        fprintf_stderr (lit "Could not read HEIC file: " ++ p ++ LF);
        heif_context_free; jpeg_destroy_compress], Ret false)
| run_primary_fails :
    heif_alloc_ok J = true -> heif_read_ok J = true -> heif_primary_ok J = false ->
    convert_run J p d q
      ([enter_convert p d q; jpeg_create_compress; heif_context_alloc true;
        heif_context_read_from_file p true;
        heif_context_get_primary_image_handle false;
        fprintf_stderr (lit "Could not get primary image handle" ++ LF);
        heif_context_free; jpeg_destroy_compress], Ret false)
| run_decode_fails :
    heif_alloc_ok J = true -> heif_read_ok J = true -> heif_primary_ok J = true ->
    heif_decode_ok J = false ->
    convert_run J p d q
      ([enter_convert p d q; jpeg_create_compress; heif_context_alloc true;
        heif_context_read_from_file p true;
        heif_context_get_primary_image_handle true;
        heif_decode_image false;
        fprintf_stderr (lit "Could not decode image" ++ LF);
        heif_image_handle_release; heif_context_free; jpeg_destroy_compress],
       Ret false)
| run_undefined :
    heif_alloc_ok J = true -> heif_read_ok J = true -> heif_primary_ok J = true ->
    heif_decode_ok J = true -> output_filename p d = None ->
    convert_run J p d q
      ([enter_convert p d q; jpeg_create_compress; heif_context_alloc true;
        heif_context_read_from_file p true;
        heif_context_get_primary_image_handle true;
        heif_decode_image true; heif_image_get_plane_readonly], Undefined)
| run_open_fails f :
    heif_alloc_ok J = true -> heif_read_ok J = true -> heif_primary_ok J = true ->
    heif_decode_ok J = true -> output_filename p d = Some f -> fopen_ok J = false ->
    convert_run J p d q
      ([enter_convert p d q; jpeg_create_compress; heif_context_alloc true;
        heif_context_read_from_file p true;
        heif_context_get_primary_image_handle true;
        heif_decode_image true; heif_image_get_plane_readonly;
        fopen_wb f false;
        fprintf_stderr (lit "Could not create output file: " ++ f ++ LF);
        heif_image_release; heif_image_handle_release; heif_context_free;
        jpeg_destroy_compress], Ret false)
| run_encodes f :
    heif_alloc_ok J = true -> heif_read_ok J = true -> heif_primary_ok J = true ->
    heif_decode_ok J = true -> output_filename p d = Some f -> fopen_ok J = true ->
    convert_run J p d q
      ([enter_convert p d q; jpeg_create_compress; heif_context_alloc true;
        heif_context_read_from_file p true;
        heif_context_get_primary_image_handle true;
        heif_decode_image true; heif_image_get_plane_readonly;
        fopen_wb f true]
       ++ jpeg_trace J (encoding_calls J q)
       ++ (if forallb (jpeg_ok J) (encoding_calls J q) then full_cleanup else []),
       if forallb (jpeg_ok J) (encoding_calls J q) then Ret true
       else Exit EXIT_FAILURE).

(** A directory entry whose conversion returns 1. *)
Definition successful (W : world) (q : Z) (d_name : cstring) : bool :=
  has_heic_extension d_name &&
  match result_of (convert_heic_to_jpg (job W (input_path_of d_name))
                     (input_path_of d_name) output_dir q) with
  | Ret true => true
  | _ => false
  end.

(** The calls of [jpeg_write_scanlines] in order: the counter
    [next_scanline] at the call and the byte offset of the row pointer in the
    decoded plane (line 138). *)
Definition scanline_pointers (t : trace) : list (nat * Z) :=
  filter_map (fun e => match e with
                       | jpeg (jpeg_write_scanlines row offset) _ => Some (row, offset)
                       | _ => None
                       end) t.

(** ** [cleanup_context] on the pointer it is given *)


(** ** Further observations on traces *)

(** Where a call reaches into the file system: reads under [Photos/], writes
    under [output/], and directory calls on the two fixed directories. *)
Definition confined (e : event) : Prop :=
  match e with
  | enter_convert p d _ => is_prefix (lit "Photos/") p = true /\ d = output_dir
  | heif_context_read_from_file p _ => is_prefix (lit "Photos/") p = true
  | fopen_wb f _ => is_prefix (lit "output/") f = true
  | stat p => p = output_dir
  | mkdir p mode => p = output_dir /\ mode = 493%Z
  | opendir p => p = input_dir
  | _ => True
  end.

(** The quality a call carries, if it carries one. *)
Definition quality_of (e : event) : option Z :=
  match e with
  | enter_convert _ _ q => Some q
  | jpeg (jpeg_set_quality q) _ => Some q
  | _ => None
  end.

(** Calls into libheif, libjpeg or [fopen]/[fclose]: the work of a
    conversion. *)
Definition conversion_call (e : event) : bool :=
  match e with
  | enter_convert _ _ _ | jpeg_create_compress | heif_context_alloc _
  | heif_context_read_from_file _ _ | heif_context_get_primary_image_handle _
  | heif_decode_image _ | heif_image_get_plane_readonly | fopen_wb _ _ | jpeg _ _
  | fclose | heif_image_release | heif_image_handle_release | heif_context_free
  | jpeg_destroy_compress => true
  | _ => false
  end.

Definition is_closedir (e : event) : bool :=
  match e with closedir => true | _ => false end.

Definition is_opendir (e : event) : bool :=
  match e with opendir _ => true | _ => false end.

(** Calls of a conversion that name no file and carry no quality. *)
Definition local_call (e : event) : bool :=
  match e with
  | jpeg_create_compress | heif_context_alloc _
  | heif_context_get_primary_image_handle _ | heif_decode_image _
  | heif_image_get_plane_readonly | fclose | heif_image_release
  | heif_image_handle_release | heif_context_free | jpeg_destroy_compress
  | fprintf_stderr _ => true
  | _ => false
  end.

(** The line of lines 192-196 for a count [k]. *)
Definition summary_text (k : Z) : cstring :=
  if (k =? 0)%Z then lit "No HEIC files found in the Photos directory." ++ LF
  else lit "Successfully converted " ++ decimal k ++ lit " photos to JPEG format." ++ LF.

(** The four ways [main] can run, by the place where it stops.  Lemma
    [main_runs] shows that they are all. *)
Inductive main_run (W : world) : M Z -> Prop :=
| run_invalid_quality :
    quality_invalid W = true ->
    main_run W
      ([printf (lit "Enter JPEG quality (1-100, recommended 75-95): "); scanf_d;
        fprintf_stderr
          (lit "Invalid quality value. Please enter a number between 1 and 100." ++ LF)],
       Ret 1%Z)
| run_no_output_dir q :
    stdin_int W = Some q -> quality_invalid W = false ->
    result_of (ensure_directory W output_dir) = Ret false ->
    main_run W
      ([printf (lit "Enter JPEG quality (1-100, recommended 75-95): "); scanf_d;
        printf (lit "Using JPEG quality: " ++ decimal q ++ LF)]
       ++ trace_of (ensure_directory W output_dir)
       ++ [fprintf_stderr (lit "Failed to create output directory" ++ LF)],
       Ret 1%Z)
| run_no_input_dir q :
    stdin_int W = Some q -> quality_invalid W = false ->
    result_of (ensure_directory W output_dir) = Ret true ->
    opendir_result W input_dir = None ->
    main_run W
      ([printf (lit "Enter JPEG quality (1-100, recommended 75-95): "); scanf_d;
        printf (lit "Using JPEG quality: " ++ decimal q ++ LF)]
       ++ trace_of (ensure_directory W output_dir)
       ++ [opendir input_dir;
           fprintf_stderr (lit "Could not open Photos directory: "
                             ++ strerror_errno W ++ LF)],
       Ret 1%Z)
| run_scan q entries :
    stdin_int W = Some q -> quality_invalid W = false ->
    result_of (ensure_directory W output_dir) = Ret true ->
    opendir_result W input_dir = Some entries ->
    main_run W
      ([printf (lit "Enter JPEG quality (1-100, recommended 75-95): "); scanf_d;
        printf (lit "Using JPEG quality: " ++ decimal q ++ LF)]
       ++ trace_of (ensure_directory W output_dir)
       ++ [opendir input_dir; printf (lit "Converting files..." ++ LF)]
       ++ trace_of (batch W q entries 0)
       ++ match result_of (batch W q entries 0) with
          | Ret k => [closedir; printf (summary_text k)]
          | _ => []
          end,
       match result_of (batch W q entries 0) with
       | Ret k => Ret (if closedir_ok W then 0 else 1)%Z
       | Exit status => Exit status
       | Undefined => Undefined
       end).

(** ** Sample worlds *)

(** A 2x2 image that decodes and encodes without error. *)
Definition J_ok : job_world :=
  {| heif_alloc_ok := true; heif_read_ok := true; heif_primary_ok := true;
     heif_decode_ok := true; plane_stride := 6; image_width := 2; image_height := 2;
     fopen_ok := true; jpeg_ok := fun _ => true |}.

(** The same image when libjpeg fails to write a scanline. *)
Definition J_row_error : job_world :=
  {| heif_alloc_ok := true; heif_read_ok := true; heif_primary_ok := true;
     heif_decode_ok := true; plane_stride := 6; image_width := 2; image_height := 2;
     fopen_ok := true;
     jpeg_ok := fun c => match c with jpeg_write_scanlines _ _ => false | _ => true end |}.

(** A file that is not a HEIC container. *)
Definition J_unreadable : job_world :=
  {| heif_alloc_ok := true; heif_read_ok := false; heif_primary_ok := false;
     heif_decode_ok := false; plane_stride := 0; image_width := 0; image_height := 0;
     fopen_ok := true; jpeg_ok := fun _ => true |}.

(** A container without a primary image. *)
Definition J_no_primary : job_world :=
  {| heif_alloc_ok := true; heif_read_ok := true; heif_primary_ok := false;
     heif_decode_ok := false; plane_stride := 0; image_width := 0; image_height := 0;
     fopen_ok := true; jpeg_ok := fun _ => true |}.

Definition sample_entries : list cstring := [lit "a.HEIC"; lit "b.heic"; lit "c.txt"].

(** Quality 85, [output] exists, [Photos] holds [entries], every file is
    answered by [J]. *)
Definition sample_world (entries : list cstring) (J : job_world) : world :=
  {| stdin_int := Some 85%Z;
     stat_result := fun _ => Some directory;
     mkdir_ok := fun _ _ => true;
     opendir_result := fun _ => Some entries;
     closedir_ok := true;
     strerror_errno := lit "No such file or directory";
     job := fun _ => J |}.

(** An empty [Photos] directory whose [closedir] fails. *)
Definition W_closedir_fails : world :=
  {| stdin_int := Some 85%Z;
     stat_result := fun _ => Some directory;
     mkdir_ok := fun _ _ => true;
     opendir_result := fun _ => Some [];
     closedir_ok := false;
     strerror_errno := [];
     job := fun _ => J_ok |}.

(** A regular file named [output] is in the way. *)
Definition W_plain_output : world :=
  {| stdin_int := Some 85%Z;
     stat_result := fun _ => Some regular_file;
     mkdir_ok := fun _ _ => false;
     opendir_result := fun _ => Some [];
     closedir_ok := true;
     strerror_errno := [];
     job := fun _ => J_ok |}.

(** An input path of 1023 bytes, the most [input_path[MAX_PATH]] holds:
    a basename of 1015 letters and a dot. *)
Definition long_stem : cstring := repeat "a"%char 1015.
Definition long_path : cstring := lit "Photos/" ++ long_stem ++ lit ".".

(** [Photos] holds the sample entries; libjpeg fails on a scanline of
    [a.HEIC], while every other file converts without error. *)
Definition W_first_dies : world :=
  {| stdin_int := Some 85%Z;
     stat_result := fun _ => Some directory;
     mkdir_ok := fun _ _ => true;
     opendir_result := fun _ => Some sample_entries;
     closedir_ok := true;
     strerror_errno := [];
     job := fun p => if is_prefix (lit "Photos/a.HEIC") p then J_row_error else J_ok |}.

(** * Properties *)

(** ** C strings *)

Section CStringFacts.

Implicit Types (s p : cstring) (c : ascii).

Lemma filter_map_app {A B : Type} (f : A -> option B) (l1 l2 : list A) :
  filter_map f (l1 ++ l2) = filter_map f l1 ++ filter_map f l2.
Proof.
  induction l1 as [|a l1 IH]; simpl; [reflexivity|].
  destruct (f a); simpl; now rewrite IH.
Qed.

Lemma strrchr_None s c : strrchr s c = None <-> ~ In c s.
Proof.
  induction s as [|a s IH]; simpl.
  - tauto.
  - destruct (strrchr s c) eqn:E.
    + split; [discriminate|].
      intros H. exfalso. apply H. right.
      destruct (in_dec ascii_dec c s) as [Hin|Hnin]; [assumption|].
      apply IH in Hnin. discriminate.
    + destruct (Ascii.eqb a c) eqn:Eac.
      * apply Ascii.eqb_eq in Eac. split; [discriminate|]. intros H. exfalso. auto.
      * apply Ascii.eqb_neq in Eac. split; [|reflexivity].
        intros _ [H|H]; [contradiction|]. now apply IH in H.
Qed.

Lemma strrchr_Some s c k :
  strrchr s c = Some k ->
  s = firstn k s ++ c :: skipn (S k) s /\ ~ In c (skipn (S k) s).
Proof.
  revert k. induction s as [|a s IH]; simpl; intros k H; [discriminate|].
  destruct (strrchr s c) as [j|] eqn:E.
  - injection H as <-. destruct (IH j eq_refl) as [Hs Hn].
    rewrite firstn_cons. split; [|exact Hn].
    rewrite <- app_comm_cons. f_equal. exact Hs.
  - destruct (Ascii.eqb a c) eqn:Eac; [|discriminate].
    injection H as <-. apply Ascii.eqb_eq in Eac. subst a. simpl.
    split; [reflexivity | now apply strrchr_None].
Qed.


Lemma strrchr_last pre post c :
  ~ In c post -> strrchr (pre ++ c :: post) c = Some (List.length pre).
Proof.
  intros Hn. induction pre as [|a pre IH]; simpl.
  - apply strrchr_None in Hn. rewrite Hn. now rewrite Ascii.eqb_refl.
  - now rewrite IH.
Qed.


Lemma code_inj a b : (code a - code b = 0)%Z -> a = b.
Proof.
  unfold code. intros H.
  assert (nat_of_ascii a = nat_of_ascii b) as E by lia.
  rewrite <- (ascii_nat_embedding a), <- (ascii_nat_embedding b). now rewrite E.
Qed.

Lemma tolower_NUL c : code (tolower c) = 0%Z -> c = NUL.
Proof.
  destruct c as [[] [] [] [] [] [] [] []]; vm_compute; intros H;
    first [reflexivity | discriminate H].
Qed.

Lemma no_nul_cons c s : no_nul (c :: s) = true <-> c <> NUL /\ no_nul s = true.
Proof.
  unfold no_nul. simpl. rewrite andb_true_iff, negb_true_iff, Ascii.eqb_neq. tauto.
Qed.

Lemma strcasecmp_0_of_lower s1 s2 :
  map tolower s1 = map tolower s2 -> strcasecmp s1 s2 = 0%Z.
Proof.
  revert s2. induction s1 as [|a s1 IH]; intros [|b s2]; simpl;
    try discriminate; [reflexivity|].
  intros H. injection H as Hab Hs. rewrite Hab, Z.sub_diag. simpl. auto.
Qed.

Lemma strcasecmp_0_lower s1 s2 :
  no_nul s1 = true -> no_nul s2 = true ->
  strcasecmp s1 s2 = 0%Z -> map tolower s1 = map tolower s2.
Proof.
  revert s2. induction s1 as [|a s1 IH]; intros [|b s2] H1 H2; simpl.
  - reflexivity.
  - apply no_nul_cons in H2 as [Hb _]. intros H.
    exfalso. apply Hb, tolower_NUL. lia.
  - apply no_nul_cons in H1 as [Ha _]. intros H.
    exfalso. now apply Ha, tolower_NUL.
  - apply no_nul_cons in H1 as [_ H1]. apply no_nul_cons in H2 as [_ H2].
    destruct (code (tolower a) - code (tolower b) =? 0)%Z eqn:E.
    + apply Z.eqb_eq, code_inj in E. intros H. rewrite E. f_equal. auto.
    + apply Z.eqb_neq in E. intros H. contradiction.
Qed.

(** A byte that [tolower] sends into [".heic"] is neither NUL nor a slash,
    and is a dot only where [".heic"] has its dot. *)
Lemma tolower_in_heic c :
  In (tolower c) (lit ".heic") ->
  c <> NUL /\ c <> SLASH /\ (tolower c = DOT -> c = DOT) /\ (tolower c <> DOT -> c <> DOT).
Proof.
  destruct c as [[] [] [] [] [] [] [] []]; vm_compute; intros H;
    repeat (destruct H as [H|H]; [discriminate H || idtac|]);
    try contradiction;
    repeat split; intros; try reflexivity; try discriminate; try congruence.
Qed.


Lemma snprintf_fits size s :
  (List.length s < size)%nat -> snprintf size s = s.
Proof.
  intros H. unfold snprintf. apply firstn_all2. lia.
Qed.

Lemma is_prefix_spec p s : is_prefix p s = true <-> exists post, s = p ++ post.
Proof.
  revert s. induction p as [|a p IH]; intros s; simpl.
  - split; [intros _; now exists s | reflexivity].
  - destruct s as [|b s].
    + split; [discriminate | intros [post H]; discriminate H].
    + rewrite andb_true_iff, Ascii.eqb_eq, IH. split.
      * intros [-> [post ->]]. now exists post.
      * intros [post H]. injection H as -> ->. split; [reflexivity | now exists post].
Qed.

Lemma is_infix_spec p s : is_infix p s = true <-> occurs_in p s.
Proof.
  unfold occurs_in. induction s as [|b s IH]; simpl.
  - rewrite orb_false_r, is_prefix_spec. split.
    + intros [post H]. now exists [], post.
    + intros [pre [post H]]. destruct pre; simpl in H.
      * now exists post.
      * discriminate H.
  - rewrite orb_true_iff, is_prefix_spec, IH. split.
    + intros [[post H] | [pre [post H]]].
      * now exists [], post.
      * exists (b :: pre), post. simpl. now rewrite H.
    + intros [pre [post H]]. destruct pre as [|a pre]; simpl in H.
      * left. now exists post.
      * right. injection H as _ H. now exists pre, post.
Qed.

End CStringFacts.

(** ** The model on small inputs *)

Example has_heic_extension_upper : has_heic_extension (lit "a.HEIC") = true.
Proof. reflexivity. Qed.

Example has_heic_extension_mixed : has_heic_extension (lit "IMG_0001.HeIc") = true.
Proof. reflexivity. Qed.

Example has_heic_extension_txt : has_heic_extension (lit "c.txt") = false.
Proof. reflexivity. Qed.

Example has_heic_extension_not_last : has_heic_extension (lit "a.heic.bak") = false.
Proof. reflexivity. Qed.

Example has_heic_extension_no_dot : has_heic_extension (lit "heic") = false.
Proof. reflexivity. Qed.

Example has_heic_extension_dot_entries :
  map has_heic_extension [lit "."; lit ".."; lit ".heic"] = [false; false; true].
Proof. reflexivity. Qed.

Example output_filename_simple :
  output_filename (lit "Photos/IMG_0001.HEIC") (lit "output")
  = Some (lit "output/IMG_0001.jpg").
Proof. reflexivity. Qed.

Example output_filename_two_dots :
  output_filename (lit "Photos/a.b.heic") (lit "output") = Some (lit "output/a.b.jpg").
Proof. reflexivity. Qed.

Example output_filename_no_dot :
  output_filename (lit "Photos/noext") (lit "output") = None.
Proof. reflexivity. Qed.

Example convert_ok_trace :
  convert_heic_to_jpg J_ok (lit "Photos/a.HEIC") (lit "output") 85
  = ([enter_convert (lit "Photos/a.HEIC") (lit "output") 85;
      jpeg_create_compress;
      heif_context_alloc true;
      heif_context_read_from_file (lit "Photos/a.HEIC") true;
      heif_context_get_primary_image_handle true;
      heif_decode_image true;
      heif_image_get_plane_readonly;
      fopen_wb (lit "output/a.jpg") true;
      jpeg jpeg_stdio_dest true;
      jpeg jpeg_set_defaults true;
      jpeg (jpeg_set_quality 85) true;
      jpeg jpeg_start_compress true;
      jpeg (jpeg_write_scanlines 0 0) true;
      jpeg (jpeg_write_scanlines 1 6) true;
      jpeg jpeg_finish_compress true;
      fclose; heif_image_release; heif_image_handle_release; heif_context_free;
      jpeg_destroy_compress],
     Ret true).
Proof. reflexivity. Qed.

Example convert_row_error_trace :
  convert_heic_to_jpg J_row_error (lit "Photos/a.HEIC") (lit "output") 85
  = ([enter_convert (lit "Photos/a.HEIC") (lit "output") 85;
      jpeg_create_compress;
      heif_context_alloc true;
      heif_context_read_from_file (lit "Photos/a.HEIC") true;
      heif_context_get_primary_image_handle true;
      heif_decode_image true;
      heif_image_get_plane_readonly;
      fopen_wb (lit "output/a.jpg") true;
      jpeg jpeg_stdio_dest true;
      jpeg jpeg_set_defaults true;
      jpeg (jpeg_set_quality 85) true;
      jpeg jpeg_start_compress true;
      jpeg (jpeg_write_scanlines 0 0) false],
     Exit EXIT_FAILURE).
Proof. reflexivity. Qed.

Example main_sample_run :
  stdout (trace_of (main (sample_world sample_entries J_ok)))
  = [lit "Enter JPEG quality (1-100, recommended 75-95): ";
     lit "Using JPEG quality: 85" ++ LF;
     lit "Converting files..." ++ LF;
     lit "Successfully converted 2 photos to JPEG format." ++ LF]
  /\ result_of (main (sample_world sample_entries J_ok)) = Ret 0%Z.
Proof. split; reflexivity. Qed.

Example main_quality_out_of_range :
  main {| stdin_int := Some 101%Z;
          stat_result := fun _ => None;
          mkdir_ok := fun _ _ => true;
          opendir_result := fun _ => Some sample_entries;
          closedir_ok := true;
          strerror_errno := [];
          job := fun _ => J_ok |}
  = ([printf (lit "Enter JPEG quality (1-100, recommended 75-95): ");
      scanf_d;
      fprintf_stderr
        (lit "Invalid quality value. Please enter a number between 1 and 100." ++ LF)],
     Ret 1%Z).
Proof. reflexivity. Qed.

(** ** The extension filter and the derived names *)

Section Names.

Implicit Types (name p b stem : cstring).

Lemma no_nul_skipn k s : no_nul s = true -> no_nul (skipn k s) = true.
Proof.
  unfold no_nul. rewrite !forallb_forall. intros H c Hc. apply H.
  rewrite <- (firstn_skipn k s). apply in_or_app. now right.
Qed.

Lemma tolower_heic_letters c :
  (tolower c = "h"%char -> c = "h"%char \/ c = "H"%char) /\
  (tolower c = "e"%char -> c = "e"%char \/ c = "E"%char) /\
  (tolower c = "i"%char -> c = "i"%char \/ c = "I"%char) /\
  (tolower c = "c"%char -> c = "c"%char \/ c = "C"%char).
Proof.
  destruct c as [[] [] [] [] [] [] [] []]; vm_compute;
    repeat split; intros H; first [discriminate H | now left | now right].
Qed.

(** The spec's reading in terms of [tolower]. *)
Lemma ends_in_heic_lower name :
  ends_in_heic name <->
  exists stem ext, name = stem ++ ext /\ map tolower ext = lit ".heic".
Proof.
  split.
  - intros (stem & c1 & c2 & c3 & c4 & -> & H1 & H2 & H3 & H4).
    exists stem, [DOT; c1; c2; c3; c4]. split; [reflexivity|].
    destruct H1 as [-> | ->], H2 as [-> | ->], H3 as [-> | ->], H4 as [-> | ->];
      reflexivity.
  - intros (stem & ext & -> & H).
    destruct ext as [|c0 [|c1 [|c2 [|c3 [|c4 [|c5 ext]]]]]]; try discriminate H.
    injection H as H0 H1 H2 H3 H4.
    assert (c0 = DOT) as ->.
    { apply (tolower_in_heic c0); [rewrite H0; vm_compute; tauto | exact H0]. }
    exists stem, c1, c2, c3, c4. split; [reflexivity|].
    repeat split.
    + now apply (tolower_heic_letters c1).
    + now apply (tolower_heic_letters c2).
    + now apply (tolower_heic_letters c3).
    + now apply (tolower_heic_letters c4).
Qed.

Lemma ends_in_heic_inv name :
  ends_in_heic name ->
  exists stem tail,
    name = stem ++ DOT :: tail /\ List.length tail = 4%nat /\
    ~ In DOT tail /\ ~ In SLASH (DOT :: tail) /\
    map tolower (DOT :: tail) = lit ".heic".
Proof.
  intros (stem & c1 & c2 & c3 & c4 & -> & H1 & H2 & H3 & H4).
  exists stem, [c1; c2; c3; c4].
  destruct H1 as [-> | ->], H2 as [-> | ->], H3 as [-> | ->], H4 as [-> | ->];
    (repeat split; try reflexivity; intros H; simpl in H; intuition discriminate).
Qed.

(** [has_heic_extension] accepts exactly the names that end in [.heic] in
    any letter case. *)
Lemma has_heic_extension_iff name :
  no_nul name = true ->
  has_heic_extension name = true <-> ends_in_heic name.
Proof.
  intros Hnul. unfold has_heic_extension. split.
  - destruct (strrchr name DOT) as [k|] eqn:E; [|discriminate].
    intros H. apply Z.eqb_eq in H.
    apply strcasecmp_0_lower in H; [|now apply no_nul_skipn|reflexivity].
    apply ends_in_heic_lower.
    exists (firstn k name), (skipn k name). split.
    + symmetry. apply firstn_skipn.
    + exact H.
  - intros H. apply ends_in_heic_inv in H as (stem & tail & -> & _ & Hdot & _ & Hl).
    rewrite strrchr_last by exact Hdot.
    rewrite skipn_app, skipn_all, Nat.sub_diag. simpl skipn. simpl app.
    apply Z.eqb_eq, strcasecmp_0_of_lower. exact Hl.
Qed.



Lemma base_name_spec p b : basename_of p b -> base_name p = b.
Proof.
  intros [Hn [->|[d ->]]]; unfold base_name.
  - apply strrchr_None in Hn. now rewrite Hn.
  - rewrite strrchr_last by exact Hn.
    change (SLASH :: b) with ([SLASH] ++ b). rewrite app_assoc.
    rewrite skipn_app, skipn_all2 by (rewrite length_app; simpl; lia).
    rewrite length_app. simpl List.length.
    replace (S (List.length d) - (List.length d + 1))%nat with 0%nat by lia.
    reflexivity.
Qed.

Lemma stem_spec b stem :
  without_extension b stem ->
  stem_precision b = Some (Z.of_nat (List.length stem)) /\
  firstn (List.length stem) b = stem.
Proof.
  intros (ext & -> & Hn). unfold stem_precision.
  rewrite strrchr_last by exact Hn. split; [reflexivity|].
  rewrite firstn_app, Nat.sub_diag, firstn_all. simpl. apply app_nil_r.
Qed.

Lemma output_filename_spec p dir b stem :
  basename_of p b -> without_extension b stem ->
  output_filename p dir
  = Some (snprintf MAX_PATH (dir ++ lit "/" ++ stem ++ lit ".jpg")).
Proof.
  intros Hb Hs. unfold output_filename.
  rewrite (base_name_spec p b Hb).
  destruct (stem_spec b stem Hs) as [-> Hf].
  now rewrite Nat2Z.id, Hf.
Qed.



End Names.

(** ** The monad of executions *)

Section Executions.

Context {A B C : Type}.

Lemma bind_assoc (m : M A) (f : A -> M B) (g : B -> M C) :
  bind (bind m f) g = bind m (fun x => bind (f x) g).
Proof.
  destruct m as [t [a| |]]; simpl; try reflexivity.
  destruct (f a) as [t' [b| |]]; simpl; try reflexivity.
  destruct (g b) as [t'' r]. now rewrite app_assoc.
Qed.

Lemma bind_ret (a : A) (f : A -> M B) : bind (ret a) f = f a.
Proof. unfold bind, ret. now destruct (f a). Qed.

Lemma emit_bind (e : event) (k : M B) :
  (emit e ;; k) = (e :: trace_of k, result_of k).
Proof. unfold bind, emit. now destruct k. Qed.

Lemma bind_run (m : M A) (f : A -> M B) (t : trace) (a : A) :
  m = (t, Ret a) -> bind m f = (t ++ trace_of (f a), result_of (f a)).
Proof. intros ->. simpl. now destruct (f a). Qed.

Lemma trace_of_bind (m : M A) (f : A -> M B) :
  trace_of (bind m f)
  = trace_of m ++ match result_of m with
                  | Ret a => trace_of (f a)
                  | _ => []
                  end.
Proof.
  destruct m as [t [a| |]]; cbn; [now destruct (f a) | now rewrite app_nil_r..].
Qed.

Lemma run_eq (m : M A) (r : result A) :
  result_of m = r -> m = (trace_of m, r).
Proof. destruct m as [t r']. cbn. now intros ->. Qed.

End Executions.

(** ** libjpeg calls *)

Section Encoding.

Variable J : job_world.

Lemma jpeg_seq_run cs :
  jpeg_seq J cs
  = (jpeg_trace J cs, if forallb (jpeg_ok J) cs then Ret tt else Exit EXIT_FAILURE).
Proof.
  induction cs as [|c cs IH]; simpl; [reflexivity|].
  unfold jpeg_do. destruct (jpeg_ok J c); [|reflexivity].
  rewrite emit_bind, IH. reflexivity.
Qed.

Lemma jpeg_seq_app {B : Type} cs1 cs2 (k : M B) :
  (jpeg_seq J (cs1 ++ cs2) ;; k) = (jpeg_seq J cs1 ;; jpeg_seq J cs2 ;; k).
Proof.
  induction cs1 as [|c cs1 IH]; cbn [jpeg_seq app].
  - now rewrite bind_ret.
  - rewrite !bind_assoc. now rewrite IH.
Qed.

Lemma write_scan_lines_seq stride next remaining :
  write_scan_lines J stride next remaining
  = jpeg_seq J
      (map (fun row => jpeg_write_scanlines row (JDIMENSION (Z.of_nat row * stride)))
           (seq next remaining)).
Proof.
  revert next. induction remaining as [|r IH]; intros next; [reflexivity|].
  cbn [write_scan_lines seq map jpeg_seq]. now rewrite IH.
Qed.

Lemma jpeg_seq_bind {B : Type} cs (k : M B) :
  (jpeg_seq J cs ;; k)
  = (jpeg_trace J cs ++ (if forallb (jpeg_ok J) cs then trace_of k else []),
     if forallb (jpeg_ok J) cs then result_of k else Exit EXIT_FAILURE).
Proof.
  rewrite jpeg_seq_run. destruct (forallb (jpeg_ok J) cs); simpl.
  - now destruct k.
  - now rewrite app_nil_r.
Qed.

(** Lines 126-142 are the calls of [encoding_calls], in order. *)
Lemma encoding_phase {B : Type} q (k : M B) :
  (jpeg_do J jpeg_stdio_dest ;;
   jpeg_do J jpeg_set_defaults ;;
   jpeg_do J (jpeg_set_quality q) ;;
   jpeg_do J jpeg_start_compress ;;
   write_scan_lines J (plane_stride J) 0 (Z.to_nat (JDIMENSION (image_height J))) ;;
   jpeg_do J jpeg_finish_compress ;;
   k)
  = (jpeg_seq J (encoding_calls J q) ;; k).
Proof.
  unfold encoding_calls, scanline_calls. cbn [app jpeg_seq].
  rewrite !bind_assoc, jpeg_seq_app, write_scan_lines_seq.
  cbn [jpeg_seq]. now rewrite bind_assoc, bind_ret.
Qed.

End Encoding.

(** ** The converter *)

Lemma convert_heic_to_jpg_runs J p d q :
  convert_run J p d q (convert_heic_to_jpg J p d q).
Proof.
  unfold convert_heic_to_jpg.
  destruct (heif_alloc_ok J) eqn:Halloc; cbn [ctx negb];
    [|now apply run_alloc_fails].
  destruct (heif_read_ok J) eqn:Hread; cbn [negb];
    [|now apply run_read_fails].
  destruct (heif_primary_ok J) eqn:Hprimary; cbn [negb];
    [|now apply run_primary_fails].
  destruct (heif_decode_ok J) eqn:Hdecode; cbn [negb];
    [|now apply run_decode_fails].
  destruct (output_filename p d) as [f|] eqn:Hname;
    [|now apply run_undefined].
  destruct (fopen_ok J) eqn:Hopen; cbn [outfile negb];
    [|now apply (run_open_fails J p d q f)].
  rewrite encoding_phase, jpeg_seq_bind.
  rewrite !emit_bind. cbn [trace_of result_of fst snd].
  pose proof (run_encodes J p d q f Halloc Hread Hprimary Hdecode Hname Hopen) as H.
  destruct (forallb (jpeg_ok J) (encoding_calls J q)); exact H.
Qed.

Ltac by_runs J p d q :=
  let H := fresh "Hrun" in
  pose proof (convert_heic_to_jpg_runs J p d q) as H;
  destruct H.

(** ** Return value of the converter *)

(** C1, as amended.  [convert_heic_to_jpg] returns 1 exactly when context
    allocation, container read, primary-image lookup, decode and output-file
    open succeed, the output name is defined, and no libjpeg call of the
    encoding phase reports an error.  A failure of one of the five checked
    steps returns 0 and runs no later step.  The results of scanline
    encoding and finish-compress are never inspected: an error there ends the
    process with [EXIT_FAILURE] instead of returning 0. *)
Theorem convert_result (J : job_world) (p d : cstring) (q : Z) :
  let m := convert_heic_to_jpg J p d q in
  (result_of m = Ret true <->
     heif_alloc_ok J = true /\ heif_read_ok J = true /\ heif_primary_ok J = true /\
     heif_decode_ok J = true /\ output_filename p d <> None /\ fopen_ok J = true /\
     forallb (jpeg_ok J) (encoding_calls J q) = true) /\
  (heif_alloc_ok J = false ->
     result_of m = Ret false /\ steps_run (trace_of m) = [context_allocation]) /\
  (heif_alloc_ok J = true -> heif_read_ok J = false ->
     result_of m = Ret false /\
     steps_run (trace_of m) = [context_allocation; container_read]) /\
  (heif_alloc_ok J = true -> heif_read_ok J = true -> heif_primary_ok J = false ->
     result_of m = Ret false /\
     steps_run (trace_of m)
     = [context_allocation; container_read; primary_image_lookup]) /\
  (heif_alloc_ok J = true -> heif_read_ok J = true -> heif_primary_ok J = true ->
   heif_decode_ok J = false ->
     result_of m = Ret false /\
     steps_run (trace_of m)
     = [context_allocation; container_read; primary_image_lookup; decode]) /\
  (heif_alloc_ok J = true -> heif_read_ok J = true -> heif_primary_ok J = true ->
   heif_decode_ok J = true -> output_filename p d <> None -> fopen_ok J = false ->
     result_of m = Ret false /\
     steps_run (trace_of m)
     = [context_allocation; container_read; primary_image_lookup; decode;
        output_open]) /\
  (heif_alloc_ok J = true -> heif_read_ok J = true -> heif_primary_ok J = true ->
   heif_decode_ok J = true -> output_filename p d <> None -> fopen_ok J = true ->
   forallb (jpeg_ok J) (encoding_calls J q) = false ->
     result_of m = Exit EXIT_FAILURE).
Proof.
  cbv zeta. by_runs J p d q; cbn [result_of trace_of fst snd];
    repeat match goal with
           | |- _ /\ _ => split
           | |- _ <-> _ => split
           | |- _ -> _ => intro
           end;
    try congruence; try reflexivity;
    repeat match goal with
           | H : _ /\ _ |- _ => destruct H
           end;
    try congruence.
  all: destruct (forallb (jpeg_ok J) (encoding_calls J q)) eqn:Hall;
    try congruence; try reflexivity.
Qed.

(** C1 as stated fails: every checked step succeeds, writing the first
    scanline fails, and the call does not return 0; the process ends inside
    libjpeg. *)
Lemma scanline_error_is_not_returned :
  let J := J_row_error in
  let m := convert_heic_to_jpg J (lit "Photos/a.heic") output_dir 85 in
  heif_alloc_ok J = true /\ heif_read_ok J = true /\ heif_primary_ok J = true /\
  heif_decode_ok J = true /\ fopen_ok J = true /\
  jpeg_ok J (jpeg_write_scanlines 0 0) = false /\
  steps_run (trace_of m)
  = [context_allocation; container_read; primary_image_lookup; decode; output_open;
     scanline_encoding] /\
  result_of m = Exit EXIT_FAILURE /\
  result_of m <> Ret false.
Proof.
  cbv zeta. repeat split; try reflexivity. discriminate.
Qed.

(** ** Resources *)

(** C7, as amended.  Whenever [convert_heic_to_jpg] returns, with either
    result, its trace is a body that only acquires followed by a cleanup that
    only releases; no resource is acquired twice, and the cleanup releases
    exactly the acquired resources, in the reverse of the order of
    acquisition. *)
Theorem resources_released_on_return (J : job_world) (p d : cstring) (q : Z) (b : bool) :
  result_of (convert_heic_to_jpg J p d q) = Ret b ->
  exists body cleanup,
    trace_of (convert_heic_to_jpg J p d q) = body ++ cleanup /\
    releases body = [] /\
    acquisitions cleanup = [] /\
    NoDup (acquisitions body) /\
    releases cleanup = rev (acquisitions body).
Proof.
  assert (forall cs, acquisitions (jpeg_trace J cs) = []
                     /\ releases (jpeg_trace J cs) = []) as Hjpeg.
  { induction cs as [|c cs [IHa IHr]]; [now split|].
    simpl. destruct (jpeg_ok J c); now split. }
  by_runs J p d q; cbn [result_of trace_of fst snd]; intros Hret; try discriminate.
  - exists [enter_convert p d q; jpeg_create_compress; heif_context_alloc false;
            fprintf_stderr (lit "Failed to allocate HEIF context" ++ LF)],
           [jpeg_destroy_compress].
    repeat split; try reflexivity. repeat constructor; simpl; intuition discriminate.
  - exists [enter_convert p d q; jpeg_create_compress; heif_context_alloc true;
            heif_context_read_from_file p false;
            fprintf_stderr (lit "Could not read HEIC file: " ++ p ++ LF)],
           [heif_context_free; jpeg_destroy_compress].
    repeat split; try reflexivity. repeat constructor; simpl; intuition discriminate.
  - exists [enter_convert p d q; jpeg_create_compress; heif_context_alloc true;
            heif_context_read_from_file p true;
            heif_context_get_primary_image_handle false;
            fprintf_stderr (lit "Could not get primary image handle" ++ LF)],
           [heif_context_free; jpeg_destroy_compress].
    repeat split; try reflexivity. repeat constructor; simpl; intuition discriminate.
  - exists [enter_convert p d q; jpeg_create_compress; heif_context_alloc true;
            heif_context_read_from_file p true;
            heif_context_get_primary_image_handle true;
            heif_decode_image false;
            fprintf_stderr (lit "Could not decode image" ++ LF)],
           [heif_image_handle_release; heif_context_free; jpeg_destroy_compress].
    repeat split; try reflexivity. repeat constructor; simpl; intuition discriminate.
  - exists [enter_convert p d q; jpeg_create_compress; heif_context_alloc true;
            heif_context_read_from_file p true;
            heif_context_get_primary_image_handle true;
            heif_decode_image true; heif_image_get_plane_readonly;
            fopen_wb f false;
            fprintf_stderr (lit "Could not create output file: " ++ f ++ LF)],
           [heif_image_release; heif_image_handle_release; heif_context_free;
            jpeg_destroy_compress].
    repeat split; try reflexivity. repeat constructor; simpl; intuition discriminate.
  - destruct (forallb (jpeg_ok J) (encoding_calls J q)); [|discriminate].
    exists ([enter_convert p d q; jpeg_create_compress; heif_context_alloc true;
             heif_context_read_from_file p true;
             heif_context_get_primary_image_handle true;
             heif_decode_image true; heif_image_get_plane_readonly;
             fopen_wb f true] ++ jpeg_trace J (encoding_calls J q)),
           full_cleanup.
    destruct (Hjpeg (encoding_calls J q)) as [Ha Hr].
    unfold acquisitions, releases in *.
    rewrite !filter_map_app, Ha, Hr, <- app_assoc.
    repeat split; try reflexivity. simpl.
    repeat constructor; simpl; intuition discriminate.
Qed.

Lemma resources_released_on_return_witness :
  exists body cleanup,
    trace_of (convert_heic_to_jpg J_ok (lit "Photos/a.HEIC") output_dir 85)
    = body ++ cleanup /\
    releases body = [] /\
    acquisitions cleanup = [] /\
    NoDup (acquisitions body) /\
    releases cleanup = rev (acquisitions body).
Proof.
  exact (resources_released_on_return J_ok (lit "Photos/a.HEIC") output_dir 85 true
           eq_refl).
Defined.

(** C7 as stated fails: when writing a scanline fails, the process ends
    inside libjpeg with all five resources acquired, and the program never
    releases the HEIF context, the image handle, the decoded image or the
    output file ([cleanup_context] is not reached). *)
Lemma scanline_error_skips_cleanup :
  let m := convert_heic_to_jpg J_row_error (lit "Photos/a.HEIC") output_dir 85 in
  result_of m = Exit EXIT_FAILURE /\
  acquisitions (trace_of m)
  = [jpeg_compress_state; heif_context; image_handle; decoded_image; output_file] /\
  Forall (fun r => ~ In r (releases (trace_of m)))
         [heif_context; image_handle; decoded_image; output_file].
Proof.
  cbv zeta. repeat split. repeat constructor; intros [].
Qed.

(** ** Failures before the output file is opened *)

(** C9.  If context allocation, container read, primary-image lookup or
    decode fails, [convert_heic_to_jpg] returns 0 and its trace holds no call
    that opens, writes or closes an output file.  In every run, an [fopen] in
    the trace comes after all four have succeeded. *)
Theorem early_failure_leaves_output_alone (J : job_world) (p d : cstring) (q : Z) :
  let m := convert_heic_to_jpg J p d q in
  (heif_alloc_ok J = false \/ heif_read_ok J = false \/
   heif_primary_ok J = false \/ heif_decode_ok J = false ->
   result_of m = Ret false /\
   Forall (fun e => touches_output e = false) (trace_of m)) /\
  (forall f ok, In (fopen_wb f ok) (trace_of m) ->
     heif_alloc_ok J = true /\ heif_read_ok J = true /\
     heif_primary_ok J = true /\ heif_decode_ok J = true).
Proof.
  cbv zeta. by_runs J p d q; cbn [result_of trace_of fst snd]; split.
  all: try (intros [Hf|[Hf|[Hf|Hf]]]; congruence).
  all: try (intros _; split; [reflexivity | repeat constructor]).
  all: try (intros f0 ok Hin; now repeat split).
  all: intros f0 ok Hin; simpl in Hin;
    repeat (destruct Hin as [Hin|Hin]; [discriminate Hin|]); contradiction.
Qed.

Lemma early_failure_leaves_output_alone_witness :
  let m := convert_heic_to_jpg J_unreadable (lit "Photos/a.HEIC") output_dir 85 in
  result_of m = Ret false /\
  Forall (fun e => touches_output e = false) (trace_of m).
Proof.
  exact (proj1 (early_failure_leaves_output_alone J_unreadable (lit "Photos/a.HEIC")
                  output_dir 85)
               (or_intror (or_introl eq_refl))).
Defined.

(** ** The output directory *)

(** C10.  [ensure_directory] returns 1 whenever [stat] succeeds, whatever
    kind of entry it finds, and then makes no other call; [mkdir] with mode
    0755 is called only after [stat] has failed, and its success is the
    result.  So with a regular file named [output] and a valid quality,
    [main] goes on to open the input directory. *)
Theorem ensure_directory_accepts_any_entry (W : world) (path : cstring) :
  (forall k, stat_result W path = Some k ->
     ensure_directory W path = ([stat path], Ret true)) /\
  (stat_result W path = None ->
     ensure_directory W path
     = ([stat path; mkdir path 493], Ret (mkdir_ok W path 493))) /\
  (forall q, stat_result W output_dir = Some regular_file ->
     stdin_int W = Some q -> quality_invalid W = false ->
     exists rest,
       trace_of (main W)
       = [printf (lit "Enter JPEG quality (1-100, recommended 75-95): ");
          scanf_d;
          printf (lit "Using JPEG quality: " ++ decimal q ++ LF);
          stat output_dir;
          opendir input_dir] ++ rest).
Proof.
  unfold ensure_directory. repeat split.
  - intros k ->. reflexivity.
  - intros ->. reflexivity.
  - intros q Hstat Hq Hvalid. unfold main, ensure_directory.
    unfold quality_invalid in Hvalid. rewrite Hq in *. rewrite Hvalid, Hstat.
    destruct (opendir_result W input_dir) as [entries|].
    + destruct (batch W q entries 0) as [t r] eqn:Hbatch.
      destruct r as [n| |]; cbn [bind emit ret negb trace_of fst app];
        [destruct (n =? 0)%Z; cbn [bind emit ret negb trace_of fst app]|..];
        eexists; reflexivity.
    + eexists. reflexivity.
Qed.

Lemma ensure_directory_accepts_any_entry_witness :
  ensure_directory W_plain_output output_dir = ([stat output_dir], Ret true) /\
  exists rest,
    trace_of (main W_plain_output)
    = [printf (lit "Enter JPEG quality (1-100, recommended 75-95): ");
       scanf_d;
       printf (lit "Using JPEG quality: " ++ decimal 85 ++ LF);
       stat output_dir;
       opendir input_dir] ++ rest.
Proof.
  split.
  - exact (proj1 (ensure_directory_accepts_any_entry W_plain_output output_dir)
                 regular_file eq_refl).
  - exact (proj2 (proj2 (ensure_directory_accepts_any_entry W_plain_output output_dir))
                 85%Z eq_refl eq_refl eq_refl).
Defined.

(** ** Exit status *)

(** C3, as amended.  [main] returns 1 exactly when the quality read is
    missing or outside 1..100, the output directory cannot be created, the
    input directory cannot be opened, or the scan was completed and
    [closedir] failed; it returns 0 exactly when none of these happens and
    the scan is completed, whatever the number of files converted.  With an
    invalid quality it returns before any call on a directory and before any
    conversion.  (If libjpeg ends the process during a conversion, [main]
    does not return.) *)
Theorem main_exit_status (W : world) :
  (quality_invalid W = true ->
     result_of (main W) = Ret 1%Z /\
     Forall (fun e => directory_operation e = false) (trace_of (main W)) /\
     converted_paths (trace_of (main W)) = []) /\
  (result_of (main W) = Ret 1%Z <->
     quality_invalid W = true \/
     result_of (ensure_directory W output_dir) = Ret false \/
     opendir_result W input_dir = None \/
     (closedir_ok W = false /\
      exists q entries n,
        stdin_int W = Some q /\ opendir_result W input_dir = Some entries /\
        result_of (batch W q entries 0) = Ret n)) /\
  (result_of (main W) = Ret 0%Z <->
     quality_invalid W = false /\
     result_of (ensure_directory W output_dir) = Ret true /\
     closedir_ok W = true /\
     exists q entries n,
       stdin_int W = Some q /\ opendir_result W input_dir = Some entries /\
       result_of (batch W q entries 0) = Ret n).
Proof.
  split; [|split].
  - unfold main, quality_invalid.
    destruct (stdin_int W) as [q|];
      [destruct ((q <? 1)%Z || (q >? 100)%Z); [|discriminate]|];
      intros _; repeat split; repeat constructor.
  - unfold main, quality_invalid, ensure_directory.
    destruct (stdin_int W) as [q|] eqn:Hq;
      [destruct ((q <? 1)%Z || (q >? 100)%Z)|]; try tauto.
    destruct (stat_result W output_dir) as [kind|];
      [|destruct (mkdir_ok W output_dir 493)];
      cbn [bind emit ret negb trace_of result_of fst snd app]; try tauto.
    all: destruct (opendir_result W input_dir) as [entries|] eqn:Hdir;
      cbn [bind emit ret negb trace_of result_of fst snd app]; try tauto.
    all: destruct (batch W q entries 0) as [t r] eqn:Hbatch;
      destruct r as [n| |];
      cbn [bind emit ret negb trace_of result_of fst snd app].
    all: try (destruct (n =? 0)%Z; destruct (closedir_ok W);
              cbn [bind emit ret negb trace_of result_of fst snd app]).
    all: split;
      [ intros H;
        first [ discriminate H
              | right; right; right; split; [reflexivity|];
                exists q, entries, n; rewrite Hbatch; now repeat split ]
      | intros [H|[H|[H|[H (q' & entries' & n' & Hq' & Hdir' & Hb')]]]];
        first [ discriminate H | reflexivity
              | injection Hq' as <-; injection Hdir' as <-;
                rewrite Hbatch in Hb'; discriminate Hb' ] ].
  - unfold main, quality_invalid, ensure_directory.
    destruct (stdin_int W) as [q|] eqn:Hq;
      [destruct ((q <? 1)%Z || (q >? 100)%Z)|];
      cbn [bind emit ret negb trace_of result_of fst snd app];
      try (split; [discriminate | intros [H _]; discriminate H]).
    destruct (stat_result W output_dir) as [kind|];
      [|destruct (mkdir_ok W output_dir 493)];
      cbn [bind emit ret negb trace_of result_of fst snd app];
      try (split; [discriminate | intros (_ & H & _); discriminate H]).
    all: destruct (opendir_result W input_dir) as [entries|] eqn:Hdir;
      cbn [bind emit ret negb trace_of result_of fst snd app];
      try (split; [discriminate
                  | intros (_ & _ & _ & q' & entries' & n' & _ & H & _);
                    discriminate H]).
    all: destruct (batch W q entries 0) as [t r] eqn:Hbatch;
      destruct r as [n| |];
      cbn [bind emit ret negb trace_of result_of fst snd app].
    all: try (destruct (n =? 0)%Z; destruct (closedir_ok W);
              cbn [bind emit ret negb trace_of result_of fst snd app]).
    all: split;
      [ intros H;
        first [ discriminate H
              | repeat split; exists q, entries, n; rewrite Hbatch; now repeat split ]
      | intros (_ & _ & H & q' & entries' & n' & Hq' & Hdir' & Hb');
        first [ discriminate H | reflexivity
              | injection Hq' as <-; injection Hdir' as <-;
                rewrite Hbatch in Hb'; discriminate Hb' ] ].
Qed.

(** C3 as stated fails: the quality is valid, the output directory exists
    and the input directory is opened, yet [main] returns 1 because
    [closedir] fails. *)
Lemma closedir_failure_exits_1 :
  let W := W_closedir_fails in
  quality_invalid W = false /\
  result_of (ensure_directory W output_dir) = Ret true /\
  opendir_result W input_dir = Some [] /\
  result_of (main W) = Ret 1%Z.
Proof. cbv zeta. now repeat split. Qed.

(** ** The loop over directory entries *)

Section Batch.

Variables (W : world) (q : Z).

Lemma batch_skips name rest n :
  has_heic_extension name = false ->
  batch W q (name :: rest) n
  = (readdir (Some name) :: trace_of (batch W q rest n),
     result_of (batch W q rest n)).
Proof.
  intros H. cbn [batch]. rewrite H. apply emit_bind.
Qed.

Lemma batch_converts name rest n t b :
  has_heic_extension name = true ->
  convert_heic_to_jpg (job W (input_path_of name)) (input_path_of name) output_dir q
  = (t, Ret b) ->
  batch W q (name :: rest) n
  = (readdir (Some name) :: t
       ++ trace_of (batch W q rest (if b then n + 1 else n)%Z),
     result_of (batch W q rest (if b then n + 1 else n)%Z)).
Proof.
  intros H Hc. cbn [batch]. rewrite H, emit_bind.
  rewrite (bind_run _ _ t b Hc). reflexivity.
Qed.

Lemma batch_stops name rest n t :
  has_heic_extension name = true ->
  forall r : result bool,
  convert_heic_to_jpg (job W (input_path_of name)) (input_path_of name) output_dir q
  = (t, r) ->
  (forall b, r <> Ret b) ->
  forall k, result_of (batch W q (name :: rest) n) <> Ret k.
Proof.
  intros H r Hc Hr k. cbn [batch]. rewrite H, emit_bind, Hc.
  destruct r as [b| |]; [now elim (Hr b)|discriminate..].
Qed.

Lemma jpeg_trace_converted_paths J cs : converted_paths (jpeg_trace J cs) = [].
Proof.
  induction cs as [|c cs IH]; [reflexivity|].
  simpl. now destruct (jpeg_ok J c).
Qed.

Lemma convert_converted_paths J p d :
  converted_paths (trace_of (convert_heic_to_jpg J p d q)) = [p].
Proof.
  by_runs J p d q; try reflexivity.
  cbn [trace_of fst]. unfold converted_paths.
  rewrite !filter_map_app. fold (converted_paths (jpeg_trace J (encoding_calls J q))).
  rewrite jpeg_trace_converted_paths.
  now destruct (forallb (jpeg_ok J) (encoding_calls J q)).
Qed.

Lemma batch_converted_paths entries :
  forall n t k,
    batch W q entries n = (t, Ret k) ->
    converted_paths t = map input_path_of (filter has_heic_extension entries).
Proof.
  induction entries as [|name rest IH]; intros n t k Hb.
  - injection Hb as <- _. reflexivity.
  - cbn [filter]. destruct (has_heic_extension name) eqn:Hext.
    + destruct (convert_heic_to_jpg (job W (input_path_of name)) (input_path_of name)
                  output_dir q) as [tc rc] eqn:Hc.
      destruct rc as [b| |].
      * rewrite (batch_converts name rest n tc b Hext Hc) in Hb.
        injection Hb as <- Hr.
        change (converted_paths (readdir (Some name) :: ?l)) with (converted_paths l).
        unfold converted_paths at 1. rewrite filter_map_app.
        fold (converted_paths tc).
        fold (converted_paths (trace_of (batch W q rest (if b then n + 1 else n)%Z))).
        replace tc with (trace_of (convert_heic_to_jpg (job W (input_path_of name))
                                     (input_path_of name) output_dir q))
          by now rewrite Hc.
        rewrite convert_converted_paths. cbn [map app]. f_equal.
        apply (IH (if b then n + 1 else n)%Z _ k). now apply run_eq.
      * exfalso. apply (batch_stops name rest n tc Hext _ Hc) with (k := k);
          [discriminate|]. now rewrite Hb.
      * exfalso. apply (batch_stops name rest n tc Hext _ Hc) with (k := k);
          [discriminate|]. now rewrite Hb.
    + rewrite (batch_skips name rest n Hext) in Hb.
      injection Hb as <- Hr.
      change (converted_paths (readdir (Some name) :: ?l)) with (converted_paths l).
      apply (IH n _ k). now apply run_eq.
Qed.

Lemma batch_converted_prefix entries :
  forall n, exists rest,
    map input_path_of (filter has_heic_extension entries)
    = converted_paths (trace_of (batch W q entries n)) ++ rest.
Proof.
  induction entries as [|name rest IH]; intros n.
  - now exists [].
  - cbn [batch filter]. rewrite emit_bind. cbn [trace_of fst].
    change (converted_paths (readdir (Some name) :: ?l)) with (converted_paths l).
    destruct (has_heic_extension name); [|apply IH].
    rewrite trace_of_bind. unfold converted_paths at 1. rewrite filter_map_app.
    fold (converted_paths (trace_of (convert_heic_to_jpg (job W (input_path_of name))
                                       (input_path_of name) output_dir q))).
    rewrite convert_converted_paths. cbn [map app].
    destruct (result_of _) as [b| |].
    + destruct (IH (if b then n + 1 else n)%Z) as [tl Htl].
      exists tl. f_equal. exact Htl.
    + now exists (map input_path_of (filter has_heic_extension rest)).
    + now exists (map input_path_of (filter has_heic_extension rest)).
Qed.

End Batch.

(** C5, as amended.  [has_heic_extension] accepts exactly the names that end
    in [.heic] in any mix of letter cases.  In every run the loop hands to the
    converter only paths of accepted entries, in directory order, and a scan
    that completes has handed it the paths of all of them.  For a directory
    that holds [a.HEIC], [b.heic] and [c.txt] a completed scan hands over
    [Photos/a.HEIC] and [Photos/b.heic]. *)
Theorem driver_selects_heic_entries (W : world) (q : Z) :
  (forall name, no_nul name = true ->
     (has_heic_extension name = true <-> ends_in_heic name)) /\
  (forall entries n, exists rest,
     map input_path_of (filter has_heic_extension entries)
     = converted_paths (trace_of (batch W q entries n)) ++ rest) /\
  (forall entries n t k,
     batch W q entries n = (t, Ret k) ->
     converted_paths t = map input_path_of (filter has_heic_extension entries)) /\
  (forall n t k,
     batch W q [lit "a.HEIC"; lit "b.heic"; lit "c.txt"] n = (t, Ret k) ->
     converted_paths t = [lit "Photos/a.HEIC"; lit "Photos/b.heic"]).
Proof.
  split; [|split; [|split]].
  - intros name. apply has_heic_extension_iff.
  - apply batch_converted_prefix.
  - apply batch_converted_paths.
  - intros n t k H. now rewrite (batch_converted_paths W q _ n t k H).
Qed.

Lemma driver_selects_heic_entries_witness :
  (has_heic_extension (lit "b.heic") = true <-> ends_in_heic (lit "b.heic")) /\
  converted_paths (trace_of (batch (sample_world sample_entries J_ok) 85 sample_entries 0))
  = [lit "Photos/a.HEIC"; lit "Photos/b.heic"].
Proof.
  split.
  - exact (proj1 (driver_selects_heic_entries (sample_world sample_entries J_ok) 85)
                 (lit "b.heic") eq_refl).
  - exact (proj2 (proj2 (proj2
             (driver_selects_heic_entries (sample_world sample_entries J_ok) 85)))
                 0%Z
                 (trace_of (batch (sample_world sample_entries J_ok) 85 sample_entries 0))
                 2%Z eq_refl).
Defined.

(** C5 as stated fails: [b.heic] has the extension and would convert, but
    libjpeg ends the process while [a.HEIC] is encoded, so [b.heic] is never
    handed to the converter. *)
Lemma libjpeg_exit_skips_later_entries :
  let W := W_first_dies in
  opendir_result W input_dir = Some [lit "a.HEIC"; lit "b.heic"; lit "c.txt"] /\
  filter has_heic_extension [lit "a.HEIC"; lit "b.heic"; lit "c.txt"]
  = [lit "a.HEIC"; lit "b.heic"] /\
  result_of (convert_heic_to_jpg (job W (lit "Photos/b.heic")) (lit "Photos/b.heic")
               output_dir 85) = Ret true /\
  converted_paths (trace_of (main W)) = [lit "Photos/a.HEIC"] /\
  result_of (main W) = Exit EXIT_FAILURE.
Proof. cbv zeta. now repeat split. Qed.

(** ** The summary line *)

(** C2, the code at a failing input.  [Photos] holds the single entry
    [a.HEIC], which matches the filter and is handed to the converter, but is
    not a readable container.  The summary printed is "No HEIC files found". *)
Lemma failed_file_is_reported_as_not_found :
  let W := sample_world [lit "a.HEIC"] J_unreadable in
  opendir_result W input_dir = Some [lit "a.HEIC"] /\
  filter has_heic_extension [lit "a.HEIC"] = [lit "a.HEIC"] /\
  converted_paths (trace_of (main W)) = [lit "Photos/a.HEIC"] /\
  diagnostics (trace_of (main W)) = [lit "Could not read HEIC file: Photos/a.HEIC" ++ LF] /\
  stdout (trace_of (main W))
  = [lit "Enter JPEG quality (1-100, recommended 75-95): ";
     lit "Using JPEG quality: 85" ++ LF;
     lit "Converting files..." ++ LF;
     lit "No HEIC files found in the Photos directory." ++ LF] /\
  result_of (main W) = Ret 0%Z.
Proof. cbv zeta. now repeat split. Qed.

(** ** Diagnostics of a failed job *)

(** X3.  Every failure of a checked step writes exactly one diagnostic to
    the error stream and makes the conversion return 0, after which the loop
    goes on with the next directory entry and an unchanged count.  The
    diagnostic holds the input path when the container cannot be read and the
    output path when the output file cannot be opened; for a missing primary
    image, a failed decode and a failed allocation it is a fixed text. *)
Theorem failed_job_is_logged_and_skipped
    (W : world) (q : Z) (name : cstring) (rest : list cstring) (n : Z) :
  let p := input_path_of name in
  let J := job W p in
  let m := convert_heic_to_jpg J p output_dir q in
  (heif_alloc_ok J = false ->
     diagnostics (trace_of m) = [lit "Failed to allocate HEIF context" ++ LF]) /\
  (heif_alloc_ok J = true -> heif_read_ok J = false ->
     diagnostics (trace_of m) = [lit "Could not read HEIC file: " ++ p ++ LF] /\
     occurs_in p (lit "Could not read HEIC file: " ++ p ++ LF)) /\
  (heif_alloc_ok J = true -> heif_read_ok J = true -> heif_primary_ok J = false ->
     diagnostics (trace_of m) = [lit "Could not get primary image handle" ++ LF]) /\
  (heif_alloc_ok J = true -> heif_read_ok J = true -> heif_primary_ok J = true ->
   heif_decode_ok J = false ->
     diagnostics (trace_of m) = [lit "Could not decode image" ++ LF]) /\
  (forall f,
     heif_alloc_ok J = true -> heif_read_ok J = true -> heif_primary_ok J = true ->
     heif_decode_ok J = true -> output_filename p output_dir = Some f ->
     fopen_ok J = false ->
     diagnostics (trace_of m) = [lit "Could not create output file: " ++ f ++ LF] /\
     occurs_in f (lit "Could not create output file: " ++ f ++ LF)) /\
  (has_heic_extension name = true ->
   heif_alloc_ok J = false \/ heif_read_ok J = false \/ heif_primary_ok J = false \/
   heif_decode_ok J = false \/
   (output_filename p output_dir <> None /\ fopen_ok J = false) ->
     result_of m = Ret false /\
     batch W q (name :: rest) n
     = (readdir (Some name) :: trace_of m ++ trace_of (batch W q rest n),
        result_of (batch W q rest n))).
Proof.
  cbv zeta.
  set (p := input_path_of name). set (J := job W p).
  assert (has_heic_extension name = true ->
          result_of (convert_heic_to_jpg J p output_dir q) = Ret false ->
          batch W q (name :: rest) n
          = (readdir (Some name)
               :: trace_of (convert_heic_to_jpg J p output_dir q)
               ++ trace_of (batch W q rest n),
             result_of (batch W q rest n))) as Hloop.
  { intros Hext Hr. apply run_eq in Hr.
    now rewrite (batch_converts W q name rest n _ false Hext Hr). }
  repeat split; intros;
    try (apply Hloop; [assumption|]);
    revert Hloop;
    by_runs J p output_dir q; intros _; cbn [result_of trace_of fst snd];
    try congruence; try reflexivity;
    try (eexists; exists LF; reflexivity);
    try (intuition congruence).
  all: match goal with
       | H1 : output_filename _ _ = Some ?f, H2 : output_filename _ _ = Some ?g |- _ =>
           rewrite H1 in H2; injection H2 as <-
       end; reflexivity.
Qed.

Lemma failed_job_is_logged_and_skipped_witness :
  let W := sample_world sample_entries J_unreadable in
  let m := convert_heic_to_jpg J_unreadable (lit "Photos/a.HEIC") output_dir 85 in
  (diagnostics (trace_of m) = [lit "Could not read HEIC file: Photos/a.HEIC" ++ LF] /\
   occurs_in (lit "Photos/a.HEIC") (lit "Could not read HEIC file: Photos/a.HEIC" ++ LF)) /\
  result_of m = Ret false /\
  batch W 85 [lit "a.HEIC"; lit "b.heic"] 0
  = (readdir (Some (lit "a.HEIC")) :: trace_of m ++ trace_of (batch W 85 [lit "b.heic"] 0),
     result_of (batch W 85 [lit "b.heic"] 0)).
Proof.
  split.
  - exact (proj1 (proj2 (failed_job_is_logged_and_skipped
                           (sample_world sample_entries J_unreadable) 85
                           (lit "a.HEIC") [lit "b.heic"] 0))
                 eq_refl eq_refl).
  - exact (proj2 (proj2 (proj2 (proj2 (proj2
             (failed_job_is_logged_and_skipped
                (sample_world sample_entries J_unreadable) 85
                (lit "a.HEIC") [lit "b.heic"] 0)))))
             eq_refl (or_intror (or_introl eq_refl))).
Defined.

(** C4, the code at a failing input.  For a container without a primary
    image the conversion returns 0 and its only diagnostic is the fixed text
    of line 96, which holds neither the input path nor the file name, unlike
    the diagnostics of lines 90 and 121. *)
Lemma primary_image_diagnostic_names_no_path :
  let m := convert_heic_to_jpg J_no_primary (lit "Photos/a.HEIC") output_dir 85 in
  result_of m = Ret false /\
  diagnostics (trace_of m) = [lit "Could not get primary image handle" ++ LF] /\
  ~ occurs_in (lit "Photos/a.HEIC") (lit "Could not get primary image handle" ++ LF) /\
  ~ occurs_in (lit "a.HEIC") (lit "Could not get primary image handle" ++ LF).
Proof.
  cbv zeta. repeat split; intros H; apply is_infix_spec in H; discriminate H.
Qed.

(** ** Names handed to the converter *)



(** ** The output file name *)

(** C6, as amended.  When the basename of the input path (the part after its
    last slash) contains a dot, the derived output path is [output_dir], a
    slash, the basename with everything from its last dot stripped, and
    [.jpg], cut to the first [MAX_PATH - 1 = 1023] bytes.  It is that text in
    full whenever the text is shorter than [MAX_PATH] bytes, and it is the
    path the converter opens once decoding has succeeded. *)
Theorem output_filename_derivation (p dir b stem : cstring) :
  basename_of p b -> without_extension b stem ->
  output_filename p dir
  = Some (snprintf MAX_PATH (dir ++ lit "/" ++ stem ++ lit ".jpg")) /\
  ((List.length (dir ++ lit "/" ++ stem ++ lit ".jpg") < MAX_PATH)%nat ->
   output_filename p dir = Some (dir ++ lit "/" ++ stem ++ lit ".jpg") /\
   forall J q,
     heif_alloc_ok J = true -> heif_read_ok J = true ->
     heif_primary_ok J = true -> heif_decode_ok J = true ->
     In (fopen_wb (dir ++ lit "/" ++ stem ++ lit ".jpg") (fopen_ok J))
        (trace_of (convert_heic_to_jpg J p dir q))).
Proof.
  intros Hb Hs. pose proof (output_filename_spec p dir b stem Hb Hs) as Hname.
  split; [exact Hname|]. intros Hlen.
  rewrite snprintf_fits in Hname by exact Hlen. split; [exact Hname|].
  intros J q Halloc Hread Hprimary Hdecode.
  by_runs J p dir q; try congruence; cbn [trace_of fst].
  - assert (f = dir ++ lit "/" ++ stem ++ lit ".jpg") as -> by congruence.
    replace (fopen_ok J) with false by congruence. simpl. tauto.
  - assert (f = dir ++ lit "/" ++ stem ++ lit ".jpg") as -> by congruence.
    replace (fopen_ok J) with true by congruence.
    apply in_or_app. left. simpl. tauto.
Qed.

Lemma sample_basename :
  basename_of (lit "Photos/IMG_0001.HEIC") (lit "IMG_0001.HEIC").
Proof.
  split.
  - intros H. simpl in H. intuition discriminate.
  - right. now exists (lit "Photos").
Qed.

Lemma sample_stem : without_extension (lit "IMG_0001.HEIC") (lit "IMG_0001").
Proof.
  exists (lit "HEIC"). split; [reflexivity|].
  intros H. simpl in H. intuition discriminate.
Qed.

Lemma output_filename_derivation_witness :
  output_filename (lit "Photos/IMG_0001.HEIC") output_dir
  = Some (lit "output/IMG_0001.jpg") /\
  In (fopen_wb (lit "output/IMG_0001.jpg") true)
     (trace_of (convert_heic_to_jpg J_ok (lit "Photos/IMG_0001.HEIC") output_dir 85)).
Proof.
  assert ((List.length (output_dir ++ lit "/" ++ lit "IMG_0001" ++ lit ".jpg") < MAX_PATH)%nat)
    as Hlen by (vm_compute; lia).
  destruct (proj2 (output_filename_derivation
                     (lit "Photos/IMG_0001.HEIC") output_dir
                     (lit "IMG_0001.HEIC") (lit "IMG_0001")
                     sample_basename sample_stem) Hlen) as [Hname Hopen].
  split.
  - exact Hname.
  - exact (Hopen J_ok 85%Z eq_refl eq_refl eq_refl eq_refl).
Defined.

Lemma repeat_not_in {A : Type} (x y : A) (k : nat) : x <> y -> ~ In x (repeat y k).
Proof. intros Hne Hin. apply repeat_spec in Hin. contradiction. Qed.

(** C6 as stated fails.  [long_path] has 1023 bytes and a dot in its
    basename.  The path [output/<letters>.jpg] has 1026 bytes, and the
    derived output path is only its first 1023 bytes: it ends in [.] instead
    of [.jpg]. *)
Lemma long_output_name_is_cut :
  List.length long_path = 1023%nat /\
  basename_of long_path (long_stem ++ lit ".") /\
  without_extension (long_stem ++ lit ".") long_stem /\
  output_filename long_path output_dir
  = Some (output_dir ++ lit "/" ++ long_stem ++ lit ".") /\
  output_filename long_path output_dir
  <> Some (output_dir ++ lit "/" ++ long_stem ++ lit ".jpg").
Proof.
  assert (~ In SLASH (long_stem ++ lit ".")) as Hslash.
  { intros H. apply in_app_or in H as [H|H].
    - revert H. now apply repeat_not_in.
    - simpl in H. intuition discriminate. }
  assert (output_filename long_path output_dir
          = Some (output_dir ++ lit "/" ++ long_stem ++ lit ".")) as Hname
    by (vm_compute; reflexivity).
  split; [|split; [|split; [|split]]].
  - vm_compute. reflexivity.
  - split; [exact Hslash|]. right. now exists (lit "Photos").
  - exists []. split; [reflexivity|]. intros [].
  - exact Hname.
  - rewrite Hname. intros H. apply (f_equal (option_map (@List.length ascii))) in H.
    vm_compute in H. discriminate H.
Qed.

(** ** The count behind the summary line *)

Section Summary.

Variables (W : world) (q : Z).

Lemma jpeg_trace_stdout J cs : stdout (jpeg_trace J cs) = [].
Proof.
  induction cs as [|c cs IH]; [reflexivity|].
  simpl. now destruct (jpeg_ok J c).
Qed.

Lemma convert_stdout J p d : stdout (trace_of (convert_heic_to_jpg J p d q)) = [].
Proof.
  by_runs J p d q; try reflexivity.
  cbn [trace_of fst]. unfold stdout.
  rewrite !filter_map_app. fold (stdout (jpeg_trace J (encoding_calls J q))).
  rewrite jpeg_trace_stdout.
  now destruct (forallb (jpeg_ok J) (encoding_calls J q)).
Qed.

Lemma batch_stdout entries : forall n, stdout (trace_of (batch W q entries n)) = [].
Proof.
  induction entries as [|name rest IH]; intros n; [reflexivity|].
  cbn [batch]. rewrite emit_bind. cbn [trace_of fst].
  change (stdout (readdir (Some name) :: ?l)) with (stdout l).
  destruct (has_heic_extension name); [|apply IH].
  fold (trace_of (convert_heic_to_jpg (job W (input_path_of name)) (input_path_of name)
                    output_dir q ;;
                  batch W q rest n)).
  rewrite trace_of_bind. unfold stdout. rewrite filter_map_app.
  fold (stdout (trace_of (convert_heic_to_jpg (job W (input_path_of name))
                            (input_path_of name) output_dir q))).
  rewrite convert_stdout.
  destruct (result_of _) as [b| |]; try reflexivity. apply IH.
Qed.

Lemma batch_counts entries :
  forall n t k,
    batch W q entries n = (t, Ret k) ->
    k = (n + Z.of_nat (List.length (filter (successful W q) entries)))%Z.
Proof.
  induction entries as [|name rest IH]; intros n t k Hb.
  - injection Hb as _ <-. cbn. lia.
  - cbn [filter]. unfold successful at 1.
    destruct (has_heic_extension name) eqn:Hext; cbn [andb].
    + destruct (convert_heic_to_jpg (job W (input_path_of name)) (input_path_of name)
                  output_dir q) as [tc rc] eqn:Hc.
      destruct rc as [b| |]; cbn [result_of snd].
      * rewrite (batch_converts W q name rest n tc b Hext Hc) in Hb.
        injection Hb as _ Hr. apply run_eq in Hr. apply IH in Hr.
        destruct b; cbn [List.length]; lia.
      * exfalso. apply (batch_stops W q name rest n tc Hext _ Hc) with (k := k);
          [discriminate|]. now rewrite Hb.
      * exfalso. apply (batch_stops W q name rest n tc Hext _ Hc) with (k := k);
          [discriminate|]. now rewrite Hb.
    + rewrite (batch_skips W q name rest n Hext) in Hb.
      injection Hb as _ Hr. apply run_eq in Hr. now apply IH in Hr.
Qed.

End Summary.

(** X1.  After a completed scan the count [files_processed] is the number of
    directory entries whose conversion returned 1, and the last line written
    to standard output is "No HEIC files found in the Photos directory." when
    that number is zero and "Successfully converted N photos to JPEG format."
    with that number otherwise. *)
Theorem summary_line (W : world) (q : Z) (entries : list cstring) (t : trace) (k : Z) :
  stdin_int W = Some q -> quality_invalid W = false ->
  result_of (ensure_directory W output_dir) = Ret true ->
  opendir_result W input_dir = Some entries ->
  batch W q entries 0 = (t, Ret k) ->
  let N := Z.of_nat (List.length (filter (successful W q) entries)) in
  k = N /\
  last (stdout (trace_of (main W))) []
  = if (N =? 0)%Z then lit "No HEIC files found in the Photos directory." ++ LF
    else lit "Successfully converted " ++ decimal N ++ lit " photos to JPEG format." ++ LF.
Proof.
  intros Hq Hvalid Hdir Hopen Hbatch N.
  assert (k = N) as -> by (now rewrite (batch_counts W q entries 0 t k Hbatch)).
  split; [reflexivity|].
  assert (stdout t = []) as Ht.
  { replace t with (trace_of (batch W q entries 0)) by now rewrite Hbatch.
    apply batch_stdout. }
  unfold main. unfold quality_invalid in Hvalid. rewrite Hq in *. rewrite Hvalid.
  unfold ensure_directory in *.
  destruct (stat_result W output_dir) as [kind|];
    [|destruct (mkdir_ok W output_dir 493); [|discriminate Hdir]];
    rewrite Hopen, Hbatch;
    cbn [bind emit ret negb trace_of result_of fst snd app];
    destruct (N =? 0)%Z;
    cbn [bind emit ret negb trace_of result_of fst snd app];
    unfold stdout in *; cbn [filter_map]; rewrite filter_map_app, Ht; reflexivity.
Qed.

Lemma summary_line_witness :
  last (stdout (trace_of (main (sample_world sample_entries J_ok)))) []
  = lit "Successfully converted 2 photos to JPEG format." ++ LF.
Proof.
  exact (proj2 (summary_line (sample_world sample_entries J_ok) 85 sample_entries
                  (trace_of (batch (sample_world sample_entries J_ok) 85 sample_entries 0))
                  2%Z eq_refl eq_refl eq_refl eq_refl eq_refl)).
Defined.

(** ** Order of the scanlines *)

Lemma jpeg_trace_all_ok J cs :
  forallb (jpeg_ok J) cs = true -> jpeg_trace J cs = map (fun c => jpeg c true) cs.
Proof.
  induction cs as [|c cs IH]; [reflexivity|].
  cbn [forallb jpeg_trace map]. destruct (jpeg_ok J c); [|discriminate].
  intros H. now rewrite IH.
Qed.

Lemma scanline_pointers_of_calls (stride : Z) (rows : list nat) :
  scanline_pointers
    (map (fun c => jpeg c true)
         (map (fun row => jpeg_write_scanlines row (JDIMENSION (Z.of_nat row * stride)))
              rows))
  = map (fun row => (row, JDIMENSION (Z.of_nat row * stride))) rows.
Proof.
  induction rows as [|r rows IH]; [reflexivity|].
  cbn. f_equal. exact IH.
Qed.

(** X2.  A conversion that returns 1 has called [jpeg_write_scanlines] once
    for each counter value from 0 to [image_height - 1], in that order, each
    time with the row pointer [data + (row * stride mod 2^32)].  When the
    stride is not negative and [image_height * stride] is below 2^32, the
    pointer of row [r] is [data + r * stride], the start of row [r] of the
    decoded plane: every row of the image is handed over once, top to
    bottom. *)
Theorem scanlines_top_to_bottom (J : job_world) (p d : cstring) (q : Z) :
  result_of (convert_heic_to_jpg J p d q) = Ret true ->
  let rows := seq 0 (Z.to_nat (JDIMENSION (image_height J))) in
  scanline_pointers (trace_of (convert_heic_to_jpg J p d q))
  = map (fun row => (row, JDIMENSION (Z.of_nat row * plane_stride J))) rows /\
  ((0 <= plane_stride J)%Z ->
   (JDIMENSION (image_height J) * plane_stride J < 2 ^ 32)%Z ->
   scanline_pointers (trace_of (convert_heic_to_jpg J p d q))
   = map (fun row => (row, (Z.of_nat row * plane_stride J)%Z)) rows).
Proof.
  intros Hret rows.
  assert (scanline_pointers (trace_of (convert_heic_to_jpg J p d q))
          = map (fun row => (row, JDIMENSION (Z.of_nat row * plane_stride J))) rows)
    as Hcalls.
  { revert Hret.
    by_runs J p d q; cbn [result_of trace_of fst snd]; try discriminate.
    destruct (forallb (jpeg_ok J) (encoding_calls J q)) eqn:Hall; [|discriminate].
    intros _. rewrite (jpeg_trace_all_ok J _ Hall).
    unfold encoding_calls, scanline_calls, scanline_pointers.
    rewrite !map_app, !filter_map_app.
    fold (scanline_pointers
            (map (fun c => jpeg c true)
                 (map (fun row => jpeg_write_scanlines row
                                    (JDIMENSION (Z.of_nat row * plane_stride J)))
                      (seq 0 (Z.to_nat (JDIMENSION (image_height J))))))).
    rewrite scanline_pointers_of_calls. unfold full_cleanup. cbn.
    now rewrite !app_nil_r. }
  split; [exact Hcalls|].
  intros Hstride Hfits. rewrite Hcalls. apply map_ext_in.
  intros row Hrow. f_equal. unfold rows in Hrow. apply in_seq in Hrow.
  unfold JDIMENSION in *. apply Z.mod_small.
  assert (0 <= image_height J mod 2 ^ 32)%Z by (apply Z.mod_pos_bound; lia).
  nia.
Qed.

Lemma scanlines_top_to_bottom_witness :
  scanline_pointers
    (trace_of (convert_heic_to_jpg J_ok (lit "Photos/a.HEIC") output_dir 85))
  = [(0%nat, 0%Z); (1%nat, 6%Z)].
Proof.
  refine (proj2 (scanlines_top_to_bottom J_ok (lit "Photos/a.HEIC") output_dir 85 eq_refl)
                _ _).
  - vm_compute. discriminate.
  - vm_compute. reflexivity.
Defined.

(** ** The filter ignores letter case *)

Lemma tolower_idempotent c : tolower (tolower c) = tolower c.
Proof. destruct c as [[] [] [] [] [] [] [] []]; reflexivity. Qed.

Lemma tolower_dot c : Ascii.eqb (tolower c) DOT = Ascii.eqb c DOT.
Proof. destruct c as [[] [] [] [] [] [] [] []]; reflexivity. Qed.

Lemma strrchr_lower s : strrchr (map tolower s) DOT = strrchr s DOT.
Proof.
  induction s as [|a s IH]; [reflexivity|].
  cbn [map strrchr]. now rewrite IH, tolower_dot.
Qed.

Lemma strcasecmp_lower s t : strcasecmp (map tolower s) t = strcasecmp s t.
Proof.
  revert t. induction s as [|a s IH]; intros [|b t]; cbn [map strcasecmp];
    rewrite ?tolower_idempotent; try reflexivity.
  now rewrite IH.
Qed.

Lemma has_heic_extension_lower name :
  has_heic_extension (map tolower name) = has_heic_extension name.
Proof.
  unfold has_heic_extension. rewrite strrchr_lower.
  destruct (strrchr name DOT) as [k|]; [|reflexivity].
  now rewrite skipn_map, strcasecmp_lower.
Qed.

(** X4.  Two file names that differ only in the case of their letters get
    the same answer from [has_heic_extension]. *)
Theorem has_heic_extension_ignores_case (name1 name2 : cstring) :
  map tolower name1 = map tolower name2 ->
  has_heic_extension name1 = has_heic_extension name2.
Proof.
  intros H.
  rewrite <- (has_heic_extension_lower name1), <- (has_heic_extension_lower name2).
  now rewrite H.
Qed.

Lemma has_heic_extension_ignores_case_witness :
  has_heic_extension (lit "IMG_0001.HEIC") = has_heic_extension (lit "img_0001.heic").
Proof.
  exact (has_heic_extension_ignores_case (lit "IMG_0001.HEIC") (lit "img_0001.heic")
           eq_refl).
Defined.

(** ** Where the output file goes *)

Lemma base_name_no_slash p : ~ In SLASH (base_name p).
Proof.
  unfold base_name. destruct (strrchr p SLASH) as [k|] eqn:E.
  - now apply strrchr_Some in E.
  - now apply strrchr_None.
Qed.

Lemma firstn_not_in {A : Type} (x : A) (n : nat) (l : list A) :
  ~ In x l -> ~ In x (firstn n l).
Proof.
  intros H Hin. apply H. rewrite <- (firstn_skipn n l). apply in_or_app. now left.
Qed.

(** X5.  Whatever the input path, a derived output path is [output_dir], one
    slash, a stem without any slash and [.jpg], cut to fit the buffer of
    [MAX_PATH] bytes: the directory part of the input never reaches the
    output path, and the buffer is never overrun. *)
Theorem output_file_is_a_child_of_output_dir (p d f : cstring) :
  output_filename p d = Some f ->
  (List.length f < MAX_PATH)%nat /\
  exists stem,
    ~ In SLASH stem /\
    f = snprintf MAX_PATH (d ++ lit "/" ++ stem ++ lit ".jpg").
Proof.
  unfold output_filename. destruct (stem_precision (base_name p)) as [z|]; [|discriminate].
  intros H. injection H as <-. split.
  - unfold snprintf. rewrite length_firstn. unfold MAX_PATH. lia.
  - exists (firstn (Z.to_nat z) (base_name p)). split; [|reflexivity].
    apply firstn_not_in, base_name_no_slash.
Qed.

Lemma output_file_is_a_child_of_output_dir_witness :
  (List.length (lit "output/c.jpg") < MAX_PATH)%nat /\
  exists stem,
    ~ In SLASH stem /\
    lit "output/c.jpg" = snprintf MAX_PATH (lit "output" ++ lit "/" ++ stem ++ lit ".jpg").
Proof.
  exact (output_file_is_a_child_of_output_dir (lit "a/b/c.d.heic/../c.heic") (lit "output")
           (lit "output/c.jpg") eq_refl).
Defined.

(** X6.  The derived output path depends on the input path only through the
    stem of its basename.  Two inputs with the same stem, whatever their
    directories and extensions, get the same output path (so [a.HEIC] and
    [a.heic] are both written to [a.jpg]); two inputs with different stems
    get different output paths as long as both paths fit the buffer. *)
Theorem output_filename_depends_on_stem
    (p1 p2 d b1 b2 stem1 stem2 : cstring) :
  basename_of p1 b1 -> without_extension b1 stem1 ->
  basename_of p2 b2 -> without_extension b2 stem2 ->
  (stem1 = stem2 -> output_filename p1 d = output_filename p2 d) /\
  ((List.length (d ++ lit "/" ++ stem1 ++ lit ".jpg") < MAX_PATH)%nat ->
   (List.length (d ++ lit "/" ++ stem2 ++ lit ".jpg") < MAX_PATH)%nat ->
   output_filename p1 d = output_filename p2 d -> stem1 = stem2).
Proof.
  intros Hb1 Hs1 Hb2 Hs2.
  rewrite (output_filename_spec p1 d b1 stem1 Hb1 Hs1).
  rewrite (output_filename_spec p2 d b2 stem2 Hb2 Hs2).
  split.
  - now intros ->.
  - intros H1 H2 H. rewrite !snprintf_fits in H by assumption.
    injection H as H. apply app_inv_head in H. injection H as H.
    now apply app_inv_tail in H.
Qed.

Lemma basename_upper : basename_of (lit "Photos/a.HEIC") (lit "a.HEIC").
Proof.
  split.
  - intros H. simpl in H. intuition discriminate.
  - right. now exists (lit "Photos").
Qed.

Lemma basename_lower : basename_of (lit "Photos/a.heic") (lit "a.heic").
Proof.
  split.
  - intros H. simpl in H. intuition discriminate.
  - right. now exists (lit "Photos").
Qed.

Lemma stem_upper : without_extension (lit "a.HEIC") (lit "a").
Proof.
  exists (lit "HEIC"). split; [reflexivity|].
  intros H. simpl in H. intuition discriminate.
Qed.

Lemma stem_lower : without_extension (lit "a.heic") (lit "a").
Proof.
  exists (lit "heic"). split; [reflexivity|].
  intros H. simpl in H. intuition discriminate.
Qed.

Lemma output_filename_depends_on_stem_witness :
  output_filename (lit "Photos/a.HEIC") output_dir
  = output_filename (lit "Photos/a.heic") output_dir.
Proof.
  exact (proj1 (output_filename_depends_on_stem
                  (lit "Photos/a.HEIC") (lit "Photos/a.heic") output_dir
                  (lit "a.HEIC") (lit "a.heic") (lit "a") (lit "a")
                  basename_upper stem_upper basename_lower stem_lower)
               eq_refl).
Defined.

(** ** Cleaning up twice *)


(** ** The runs of [main] *)

Lemma main_runs (W : world) : main_run W (main W).
Proof.
  unfold main.
  destruct (stdin_int W) as [q|] eqn:Hq;
    [|apply run_invalid_quality; unfold quality_invalid; now rewrite Hq].
  destruct ((q <? 1)%Z || (q >? 100)%Z) eqn:Hrange;
    [apply run_invalid_quality; unfold quality_invalid; now rewrite Hq|].
  assert (quality_invalid W = false) as Hvalid
    by (unfold quality_invalid; now rewrite Hq).
  rewrite emit_bind, emit_bind, emit_bind.
  cbn [trace_of result_of fst snd].
  rewrite trace_of_bind.
  pose proof (run_no_output_dir W q Hq Hvalid) as Hno_out.
  pose proof (run_no_input_dir W q Hq Hvalid) as Hno_in.
  pose proof (run_scan W q) as Hscan.
  unfold ensure_directory in *.
  destruct (stat_result W output_dir) as [kind|];
    [|destruct (mkdir_ok W output_dir 493)];
    cbn [bind emit ret negb trace_of result_of fst snd app] in *.
  3: { apply Hno_out. reflexivity. }
  all: destruct (opendir_result W input_dir) as [entries|];
    [ specialize (Hscan entries Hq Hvalid eq_refl eq_refl);
      destruct (batch W q entries 0) as [t [k| |]];
      cbn [bind emit ret negb trace_of result_of fst snd app] in *;
      [ unfold summary_text in Hscan; destruct (k =? 0)%Z;
        cbn [bind emit ret negb trace_of result_of fst snd app] in *
      | rewrite app_nil_r in Hscan | rewrite app_nil_r in Hscan ];
      exact Hscan
    | apply Hno_in; reflexivity ].
Qed.

Ltac by_main W :=
  let H := fresh "Hmain" in
  pose proof (main_runs W) as H;
  destruct H.

(** ** Which calls a run is made of *)

Lemma jpeg_trace_events J cs e :
  In e (jpeg_trace J cs) -> exists c ok, In c cs /\ e = jpeg c ok.
Proof.
  induction cs as [|c cs IH]; [intros []|].
  cbn [jpeg_trace]. destruct (jpeg_ok J c); intros [<-|H].
  - exists c, true. split; [now left | reflexivity].
  - destruct (IH H) as (c' & ok & Hc & ->). exists c', ok. split; [now right | reflexivity].
  - exists c, false. split; [now left | reflexivity].
  - destruct H.
Qed.

(** Every call of a conversion is its entry, the read of its input path,
    the open of the derived output path, a libjpeg call of the encoding
    phase, or a call that names no file. *)
Lemma convert_events J p d q e :
  In e (trace_of (convert_heic_to_jpg J p d q)) ->
  e = enter_convert p d q \/
  (exists ok, e = heif_context_read_from_file p ok) \/
  (exists f ok, output_filename p d = Some f /\ e = fopen_wb f ok) \/
  (exists c ok, In c (encoding_calls J q) /\ e = jpeg c ok) \/
  local_call e = true.
Proof.
  by_runs J p d q; cbn [trace_of fst].
  1-6: intros Hin; cbn [In] in Hin;
    repeat (destruct Hin as [<-|Hin];
            [first [ now left
                   | right; left; eexists; reflexivity
                   | right; right; left; eexists; eexists; split; [eassumption|reflexivity]
                   | right; right; right; right; reflexivity ]|]);
    destruct Hin.
  intros Hin. apply in_app_or in Hin as [Hin|Hin].
  - cbn [In] in Hin.
    repeat (destruct Hin as [<-|Hin];
            [first [ now left
                   | right; left; eexists; reflexivity
                   | right; right; left; eexists; eexists; split; [eassumption|reflexivity]
                   | right; right; right; right; reflexivity ]|]);
    destruct Hin.
  - apply in_app_or in Hin as [Hin|Hin].
    + right. right. right. left. now apply (jpeg_trace_events J).
    + right. right. right. right.
      destruct (forallb (jpeg_ok J) (encoding_calls J q)); [|destruct Hin].
      cbn [In full_cleanup] in Hin.
      repeat (destruct Hin as [<-|Hin]; [reflexivity|]). destruct Hin.
Qed.

(** Every call of the loop is a [readdir] or belongs to the conversion of an
    accepted entry. *)
Lemma batch_events W q entries :
  forall n e,
    In e (trace_of (batch W q entries n)) ->
    (exists d_name, e = readdir d_name) \/
    (exists name,
       In name entries /\ has_heic_extension name = true /\
       In e (trace_of (convert_heic_to_jpg (job W (input_path_of name))
                         (input_path_of name) output_dir q))).
Proof.
  induction entries as [|name rest IH]; intros n e.
  - cbn. intros [<-|[]]. left. now eexists.
  - cbn [batch]. rewrite emit_bind. cbn [trace_of fst].
    intros [<-|Hin]; [left; now eexists|].
    destruct (has_heic_extension name) eqn:Hext.
    + change (fst ?m) with (trace_of m) in Hin. rewrite trace_of_bind in Hin.
      apply in_app_or in Hin as [Hin|Hin].
      * right. exists name. repeat split; [now left | assumption..].
      * destruct (result_of _) as [b| |]; [|destruct Hin..].
        destruct (IH _ e Hin) as [Hr|(name' & Hn & Hh & Hc)]; [now left|].
        right. exists name'. repeat split; [now right | assumption..].
    + destruct (IH n e Hin) as [Hr|(name' & Hn & Hh & Hc)]; [now left|].
      right. exists name'. repeat split; [now right | assumption..].
Qed.

Lemma ensure_directory_events W e :
  In e (trace_of (ensure_directory W output_dir)) ->
  e = stat output_dir \/ e = mkdir output_dir 493.
Proof.
  unfold ensure_directory. destruct (stat_result W output_dir); cbn.
  - intros [<-|[]]. now left.
  - intros [<-|[<-|[]]]; [now left | now right].
Qed.

(** Every call of [main] is a line of output, the read of the quality, a
    call on one of the two fixed directories, or a call of the loop. *)
Lemma main_events W e :
  In e (trace_of (main W)) ->
  (exists text, e = printf text) \/ (exists text, e = fprintf_stderr text) \/
  e = scanf_d \/ e = stat output_dir \/ e = mkdir output_dir 493 \/
  e = opendir input_dir \/ e = closedir \/
  (exists q entries,
     stdin_int W = Some q /\ quality_invalid W = false /\
     opendir_result W input_dir = Some entries /\
     In e (trace_of (batch W q entries 0))).
Proof.
  assert (forall text, (exists t, printf text = printf t)) as Hp by (intros; now eexists).
  assert (forall text, (exists t, fprintf_stderr text = fprintf_stderr t)) as Hs
    by (intros; now eexists).
  by_main W; cbn [trace_of fst]; intros Hin.
  - cbn [In] in Hin. destruct Hin as [<-|[<-|[<-|[]]]]; auto.
  - apply in_app_or in Hin as [Hin|Hin];
      [cbn [In] in Hin; destruct Hin as [<-|[<-|[<-|[]]]]; auto|].
    apply in_app_or in Hin as [Hin|Hin].
    + apply ensure_directory_events in Hin as [->| ->]; auto 10.
    + cbn [In] in Hin. destruct Hin as [<-|[]]; auto.
  - apply in_app_or in Hin as [Hin|Hin];
      [cbn [In] in Hin; destruct Hin as [<-|[<-|[<-|[]]]]; auto|].
    apply in_app_or in Hin as [Hin|Hin].
    + apply ensure_directory_events in Hin as [->| ->]; auto 10.
    + cbn [In] in Hin. destruct Hin as [<-|[<-|[]]]; auto 10.
  - apply in_app_or in Hin as [Hin|Hin];
      [cbn [In] in Hin; destruct Hin as [<-|[<-|[<-|[]]]]; auto|].
    apply in_app_or in Hin as [Hin|Hin].
    + apply ensure_directory_events in Hin as [->| ->]; auto 10.
    + apply in_app_or in Hin as [Hin|Hin];
        [cbn [In] in Hin; destruct Hin as [<-|[<-|[]]]; auto 10|].
      apply in_app_or in Hin as [Hin|Hin].
      * do 7 right. exists q, entries. auto.
      * destruct (result_of (batch W q entries 0)); [|destruct Hin..].
        cbn [In] in Hin. destruct Hin as [<-|[<-|[]]]; auto 10.
Qed.

(** ** What the program touches *)

Lemma is_prefix_snprintf (pre rest : cstring) (size : nat) :
  (List.length pre < size)%nat -> is_prefix pre (snprintf size (pre ++ rest)) = true.
Proof.
  intros H. apply is_prefix_spec. unfold snprintf.
  rewrite firstn_app, firstn_all2 by lia. now eexists.
Qed.

Lemma input_path_of_prefix name : is_prefix (lit "Photos/") (input_path_of name) = true.
Proof.
  unfold input_path_of.
  assert (List.length (lit "Photos/") < MAX_PATH)%nat as Hlen
    by (unfold MAX_PATH; cbn; lia).
  exact (is_prefix_snprintf (lit "Photos/") name MAX_PATH Hlen).
Qed.

Lemma output_filename_prefix p f :
  output_filename p output_dir = Some f -> is_prefix (lit "output/") f = true.
Proof.
  unfold output_filename. destruct (stem_precision (base_name p)) as [z|]; [|discriminate].
  intros H. injection H as <-.
  assert (List.length (lit "output/") < MAX_PATH)%nat as Hlen
    by (unfold MAX_PATH; cbn; lia).
  exact (is_prefix_snprintf (lit "output/")
           (firstn (Z.to_nat z) (base_name p) ++ lit ".jpg") MAX_PATH Hlen).
Qed.

(** X8.  In every run of the program each file read by libheif lies under
    [Photos/], each file opened for writing lies under [output/], the
    converter is only called with such an input path and the output
    directory [output], [stat] and [mkdir] are only called on [output] (and
    [mkdir] with mode 0755), and [opendir] only on [Photos]: the program
    never writes into, or creates, its input directory. *)
Theorem main_is_confined (W : world) : Forall confined (trace_of (main W)).
Proof.
  apply Forall_forall. intros e Hin.
  apply main_events in Hin
    as [[t ->]|[[t ->]|[->|[->|[->|[->|[->|(q & entries & _ & _ & _ & Hin)]]]]]]];
    try exact I; try reflexivity; try (split; reflexivity).
  apply batch_events in Hin as [[d_name ->]|(name & _ & _ & Hin)]; [exact I|].
  apply convert_events in Hin
    as [->|[[ok ->]|[(f & ok & Hf & ->)|[(c & ok & _ & ->)|Hlocal]]]].
  - split; [apply input_path_of_prefix | reflexivity].
  - apply input_path_of_prefix.
  - cbn. now apply output_filename_prefix with (p := input_path_of name).
  - exact I.
  - destruct e; try discriminate Hlocal; exact I.
Qed.

(** ** The quality handed to the encoder *)

Lemma encoding_calls_quality J q q' :
  In (jpeg_set_quality q') (encoding_calls J q) -> q' = q.
Proof.
  unfold encoding_calls, scanline_calls. intros H.
  apply in_app_or in H as [H|H].
  - cbn in H. destruct H as [H|[H|[H|[H|[]]]]]; try discriminate H. now injection H.
  - apply in_app_or in H as [H|H].
    + apply in_map_iff in H as (row & H & _). discriminate H.
    + cbn in H. destruct H as [H|[]]. discriminate H.
Qed.

(** X9.  Every quality the program hands to the converter or to
    [jpeg_set_quality] is the number read from standard input, and lies
    between 1 and 100. *)
Theorem encoder_quality (W : world) (e : event) (q : Z) :
  In e (trace_of (main W)) -> quality_of e = Some q ->
  stdin_int W = Some q /\ (1 <= q <= 100)%Z.
Proof.
  intros Hin Hq.
  apply main_events in Hin
    as [[t ->]|[[t ->]|[->|[->|[->|[->|[->|(q0 & entries & Hin0 & Hvalid & _ & Hin)]]]]]]];
    try discriminate Hq.
  assert (q = q0) as ->.
  { apply batch_events in Hin as [[d_name ->]|(name & _ & _ & Hin)]; [discriminate Hq|].
    apply convert_events in Hin
      as [->|[[ok ->]|[(f & ok & _ & ->)|[(c & ok & Hc & ->)|Hlocal]]]];
      try discriminate Hq.
    - now injection Hq.
    - destruct c; try discriminate Hq. injection Hq as ->.
      now apply encoding_calls_quality in Hc.
    - destruct e; try discriminate Hlocal; discriminate Hq. }
  split; [exact Hin0|].
  unfold quality_invalid in Hvalid. rewrite Hin0 in Hvalid.
  apply orb_false_iff in Hvalid as [H1 H2].
  apply Z.ltb_ge in H1. rewrite Z.gtb_ltb in H2. apply Z.ltb_ge in H2. lia.
Qed.

Lemma sample_set_quality :
  In (jpeg (jpeg_set_quality 85) true)
     (trace_of (main (sample_world sample_entries J_ok))).
Proof. vm_compute. tauto. Qed.

Lemma encoder_quality_witness :
  stdin_int (sample_world sample_entries J_ok) = Some 85%Z /\ (1 <= 85 <= 100)%Z.
Proof.
  exact (encoder_quality (sample_world sample_entries J_ok)
           (jpeg (jpeg_set_quality 85) true) 85 sample_set_quality eq_refl).
Defined.

(** ** The output file of one conversion *)




Lemma filter_touches_jpeg cs :
  filter touches_output (map (fun c => jpeg c true) cs) = map (fun c => jpeg c true) cs.
Proof.
  induction cs as [|c cs IH]; [reflexivity|]. cbn. now rewrite IH.
Qed.

(** X11.  A conversion that returns 1 has opened exactly one file, the
    derived output path, and has worked on it in the order libjpeg asks for:
    [jpeg_stdio_dest], [jpeg_set_defaults], [jpeg_set_quality] with the given
    quality, [jpeg_start_compress], the scanlines, [jpeg_finish_compress],
    and only then [fclose]. *)
Theorem successful_conversion_protocol (J : job_world) (p d : cstring) (q : Z) :
  result_of (convert_heic_to_jpg J p d q) = Ret true ->
  exists f,
    output_filename p d = Some f /\
    filter touches_output (trace_of (convert_heic_to_jpg J p d q))
    = fopen_wb f true
        :: map (fun c => jpeg c true)
             ([jpeg_stdio_dest; jpeg_set_defaults; jpeg_set_quality q;
               jpeg_start_compress]
              ++ scanline_calls J ++ [jpeg_finish_compress])
        ++ [fclose].
Proof.
  by_runs J p d q; cbn [result_of trace_of fst snd]; try discriminate.
  destruct (forallb (jpeg_ok J) (encoding_calls J q)) eqn:Hall; [|discriminate].
  intros _. exists f. split; [assumption|].
  rewrite (jpeg_trace_all_ok J _ Hall), !filter_app, filter_touches_jpeg.
  reflexivity.
Qed.

Lemma successful_conversion_protocol_witness :
  exists f,
    output_filename (lit "Photos/a.HEIC") output_dir = Some f /\
    filter touches_output
      (trace_of (convert_heic_to_jpg J_ok (lit "Photos/a.HEIC") output_dir 85))
    = fopen_wb f true
        :: map (fun c => jpeg c true)
             ([jpeg_stdio_dest; jpeg_set_defaults; jpeg_set_quality 85;
               jpeg_start_compress]
              ++ scanline_calls J_ok ++ [jpeg_finish_compress])
        ++ [fclose].
Proof.
  exact (successful_conversion_protocol J_ok (lit "Photos/a.HEIC") output_dir 85 eq_refl).
Defined.

(** ** A directory without HEIC files *)

Lemma batch_no_match W q entries :
  filter has_heic_extension entries = [] ->
  forall n,
    batch W q entries n
    = (map (fun name => readdir (Some name)) entries ++ [readdir None], Ret n).
Proof.
  induction entries as [|name rest IH]; intros Hnone n; [reflexivity|].
  cbn [filter] in Hnone. destruct (has_heic_extension name) eqn:Hext; [discriminate|].
  rewrite (batch_skips W q name rest n Hext), (IH Hnone n). reflexivity.
Qed.

(** X12.  When the input directory holds no entry with the extension, the
    program reads the directory to its end, calls neither the converter nor
    any library of it, prints "No HEIC files found in the Photos directory."
    and returns 0, or 1 if [closedir] fails. *)
Theorem no_heic_entries (W : world) (q : Z) (entries : list cstring) :
  stdin_int W = Some q -> quality_invalid W = false ->
  result_of (ensure_directory W output_dir) = Ret true ->
  opendir_result W input_dir = Some entries ->
  filter has_heic_extension entries = [] ->
  main W
  = ([printf (lit "Enter JPEG quality (1-100, recommended 75-95): "); scanf_d;
      printf (lit "Using JPEG quality: " ++ decimal q ++ LF)]
     ++ trace_of (ensure_directory W output_dir)
     ++ [opendir input_dir; printf (lit "Converting files..." ++ LF)]
     ++ map (fun name => readdir (Some name)) entries
     ++ [readdir None; closedir;
         printf (lit "No HEIC files found in the Photos directory." ++ LF)],
     Ret (if closedir_ok W then 0 else 1)%Z)
  /\ Forall (fun e => conversion_call e = false) (trace_of (main W)).
Proof.
  intros Hq Hvalid Hdir Hopen Hnone.
  assert (main W
          = ([printf (lit "Enter JPEG quality (1-100, recommended 75-95): "); scanf_d;
              printf (lit "Using JPEG quality: " ++ decimal q ++ LF)]
             ++ trace_of (ensure_directory W output_dir)
             ++ [opendir input_dir; printf (lit "Converting files..." ++ LF)]
             ++ map (fun name => readdir (Some name)) entries
             ++ [readdir None; closedir;
                 printf (lit "No HEIC files found in the Photos directory." ++ LF)],
             Ret (if closedir_ok W then 0 else 1)%Z)) as Hmain_eq.
  { by_main W; try congruence.
    assert (q0 = q) as -> by congruence.
    assert (entries0 = entries) as -> by congruence.
    rewrite (batch_no_match W q entries Hnone 0).
    cbn [trace_of result_of fst snd]. rewrite <- !app_assoc. reflexivity. }
  split; [exact Hmain_eq|].
  rewrite Hmain_eq. cbn [trace_of fst].
  repeat (apply Forall_app; split); try (repeat constructor).
  - apply Forall_forall. intros e Hin.
    apply ensure_directory_events in Hin as [->| ->]; reflexivity.
  - apply Forall_forall. intros e Hin.
    apply in_map_iff in Hin as (name & <- & _). reflexivity.
Qed.

Lemma no_heic_entries_witness :
  main (sample_world [lit "."; lit ".."; lit "notes.txt"] J_ok)
  = ([printf (lit "Enter JPEG quality (1-100, recommended 75-95): "); scanf_d;
      printf (lit "Using JPEG quality: " ++ decimal 85 ++ LF)]
     ++ trace_of (ensure_directory (sample_world [lit "."; lit ".."; lit "notes.txt"] J_ok)
                    output_dir)
     ++ [opendir input_dir; printf (lit "Converting files..." ++ LF)]
     ++ map (fun name => readdir (Some name)) [lit "."; lit ".."; lit "notes.txt"]
     ++ [readdir None; closedir;
         printf (lit "No HEIC files found in the Photos directory." ++ LF)],
     Ret 0%Z).
Proof.
  exact (proj1 (no_heic_entries (sample_world [lit "."; lit ".."; lit "notes.txt"] J_ok)
                  85 [lit "."; lit ".."; lit "notes.txt"]
                  eq_refl eq_refl eq_refl eq_refl eq_refl)).
Defined.

(** ** The directory stream *)

Lemma filter_none {A : Type} (f : A -> bool) (l : list A) :
  (forall x, In x l -> f x = false) -> filter f l = [].
Proof.
  induction l as [|a l IH]; intros H; [reflexivity|].
  cbn. rewrite (H a) by now left. apply IH. intros x Hx. apply H. now right.
Qed.

Lemma batch_no_directory_calls W q entries n e :
  In e (trace_of (batch W q entries n)) -> is_closedir e = false /\ is_opendir e = false.
Proof.
  intros Hin. apply batch_events in Hin as [[d_name ->]|(name & _ & _ & Hin)];
    [now split|].
  apply convert_events in Hin
    as [->|[[ok ->]|[(f & ok & _ & ->)|[(c & ok & _ & ->)|Hlocal]]]];
    try now split.
  destruct e; try discriminate Hlocal; now split.
Qed.

(** X13.  [main] opens at most one directory stream and never closes more
    than it has opened.  When it returns after the input directory was
    opened, it has closed the stream exactly once; when the directory could
    not be opened, or the process ends inside a conversion, [closedir] is
    never called. *)
Theorem input_directory_is_closed_once (W : world) :
  let t := trace_of (main W) in
  (List.length (filter is_opendir t) <= 1)%nat /\
  (List.length (filter is_closedir t) <= List.length (filter is_opendir t))%nat /\
  (opendir_result W input_dir = None -> filter is_closedir t = []) /\
  (forall s, result_of (main W) = Ret s -> opendir_result W input_dir <> None ->
     filter is_opendir t = [opendir input_dir] -> filter is_closedir t = [closedir]) /\
  ((forall s, result_of (main W) <> Ret s) -> filter is_closedir t = []).
Proof.
  assert (forall f, (f = is_closedir \/ f = is_opendir) ->
                    filter f (trace_of (ensure_directory W output_dir)) = []) as Hens.
  { intros f Hf. apply filter_none. intros e Hin.
    apply ensure_directory_events in Hin as [->| ->]; destruct Hf as [-> | ->];
      reflexivity. }
  assert (forall f q entries, (f = is_closedir \/ f = is_opendir) ->
                    filter f (trace_of (batch W q entries 0)) = []) as Hbatch.
  { intros f q entries Hf. apply filter_none. intros e Hin.
    apply batch_no_directory_calls in Hin as [Hc Ho].
    destruct Hf as [-> | ->]; assumption. }
  cbv zeta. by_main W; cbn [trace_of result_of fst snd];
    rewrite ?filter_app, ?Hens, ?Hbatch by auto; cbn [filter is_opendir is_closedir app].
  4: destruct (result_of (batch W q entries 0)) as [k| |];
    cbn [filter is_opendir is_closedir app].
  all: repeat split; intros; cbn [List.length]; try lia; try reflexivity;
    try discriminate; try congruence;
    try (exfalso;
         match goal with
         | Hno : forall s, _ <> Ret s |- _ => eapply Hno; reflexivity
         end).
Qed.

(** ** The count cannot exceed the matches *)

Lemma filter_length_le {A : Type} (f g : A -> bool) (l : list A) :
  (forall x, f x = true -> g x = true) ->
  (List.length (filter f l) <= List.length (filter g l))%nat.
Proof.
  intros H. induction l as [|a l IH]; [reflexivity|].
  cbn. destruct (f a) eqn:Hf.
  - rewrite (H a Hf). cbn. lia.
  - destruct (g a); cbn; lia.
Qed.

(** X14.  Over a completed scan the count of converted files never
    decreases and grows by at most the number of directory entries that have
    the extension; it grows by exactly that number when the conversion of
    every such entry returns 1. *)
Theorem count_is_bounded_by_matches
    (W : world) (q : Z) (entries : list cstring) (n : Z) (t : trace) (k : Z) :
  batch W q entries n = (t, Ret k) ->
  (n <= k <= n + Z.of_nat (List.length (filter has_heic_extension entries)))%Z /\
  ((forall name, In name entries -> has_heic_extension name = true ->
      result_of (convert_heic_to_jpg (job W (input_path_of name)) (input_path_of name)
                   output_dir q) = Ret true) ->
   k = (n + Z.of_nat (List.length (filter has_heic_extension entries)))%Z).
Proof.
  intros Hb. rewrite (batch_counts W q entries n t k Hb). split.
  - assert (List.length (filter (successful W q) entries)
            <= List.length (filter has_heic_extension entries))%nat as Hle.
    { apply filter_length_le. intros x Hx. unfold successful in Hx.
      now apply andb_true_iff in Hx as [Hx _]. }
    lia.
  - intros Hall. f_equal. f_equal. f_equal.
    apply filter_ext_in. intros name Hin. unfold successful.
    destruct (has_heic_extension name) eqn:Hext; [|reflexivity].
    now rewrite (Hall name Hin Hext).
Qed.

Lemma count_is_bounded_by_matches_witness :
  (0 <= 2 <= 0 + Z.of_nat (List.length (filter has_heic_extension sample_entries)))%Z.
Proof.
  exact (proj1 (count_is_bounded_by_matches (sample_world sample_entries J_ok) 85
                  sample_entries 0
                  (trace_of (batch (sample_world sample_entries J_ok) 85 sample_entries 0))
                  2 eq_refl)).
Defined.

(** ** Conversions come after the setup *)

(** X15.  Any call that belongs to a conversion is made only after a valid
    quality was read, the output directory was found or created, and the
    input directory was opened: a run that fails in the setup touches no
    image file. *)
Theorem conversions_follow_setup (W : world) (e : event) :
  In e (trace_of (main W)) -> conversion_call e = true ->
  quality_invalid W = false /\
  result_of (ensure_directory W output_dir) = Ret true /\
  opendir_result W input_dir <> None.
Proof.
  assert (In e (trace_of (ensure_directory W output_dir)) ->
          conversion_call e = true -> False) as Hens.
  { intros Hin Hc. apply ensure_directory_events in Hin as [->| ->]; discriminate Hc. }
  by_main W; cbn [trace_of fst]; intros Hin Hcall.
  - exfalso. cbn [In] in Hin. destruct Hin as [<-|[<-|[<-|[]]]]; discriminate Hcall.
  - exfalso. apply in_app_or in Hin as [Hin|Hin];
      [cbn [In] in Hin; destruct Hin as [<-|[<-|[<-|[]]]]; discriminate Hcall|].
    apply in_app_or in Hin as [Hin|Hin]; [now apply Hens|].
    cbn [In] in Hin. destruct Hin as [<-|[]]. discriminate Hcall.
  - exfalso. apply in_app_or in Hin as [Hin|Hin];
      [cbn [In] in Hin; destruct Hin as [<-|[<-|[<-|[]]]]; discriminate Hcall|].
    apply in_app_or in Hin as [Hin|Hin]; [now apply Hens|].
    cbn [In] in Hin. destruct Hin as [<-|[<-|[]]]; discriminate Hcall.
  - repeat split; try assumption. congruence.
Qed.

Lemma sample_fclose :
  In fclose (trace_of (main (sample_world sample_entries J_ok))).
Proof. vm_compute. tauto. Qed.

Lemma conversions_follow_setup_witness :
  quality_invalid (sample_world sample_entries J_ok) = false /\
  result_of (ensure_directory (sample_world sample_entries J_ok) output_dir) = Ret true /\
  opendir_result (sample_world sample_entries J_ok) input_dir <> None.
Proof.
  exact (conversions_follow_setup (sample_world sample_entries J_ok) fclose
           sample_fclose eq_refl).
Defined.
